(** * Neutron SDK: transport core, polling and streaming workflows

    A shallow embedding of the HTTP client ([HttpClient]: signature,
    token lifecycle, request loop with retry and backoff), of the error
    classes, and of the transaction resource built on it
    ([waitForCompletion], [subscribe], [cancel]).

    Asynchronous code is written in a state-and-exception monad over an
    explicit world: the session held by the client, a clock and the
    answers the network is going to give.  A run yields its outcome, the
    world it leaves and the trace of the effects it performed (timer
    sleeps, HTTP exchanges, diagnostic lines, callbacks). *)

From Stdlib Require Import ZArith List String Ascii Bool Lia DecimalString.
Import ListNotations.

Local Open Scope string_scope.
Local Open Scope Z_scope.

Set Warnings "-register-all".

(* ================================================================== *)
(** * JavaScript values *)
(* ================================================================== *)

(** The values that travel through the client: what [JSON.parse] returns,
    plus [undefined].  Numbers are the integers (milliseconds, status
    codes, epoch times); [JNaN] is kept because [Date#getTime] produces it
    for an unparsable timestamp. *)
Inductive JsVal : Type :=
| JUndefined
| JNull
| JBool (b : bool)
| JNum (n : Z)
| JNaN
| JStr (s : string)
| JArr (items : list JsVal)
| JObj (fields : list (string * JsVal)).

(** [!!v] *)
Definition truthy (v : JsVal) : bool :=
  match v with
  | JUndefined | JNull | JNaN => false
  | JBool b => b
  | JNum n => negb (n =? 0)
  | JStr s => negb (String.eqb s "")
  | JArr _ | JObj _ => true
  end.

(** [a || b] *)
Definition js_or (a b : JsVal) : JsVal := if truthy a then a else b.

(** [a ?? b] *)
Definition js_nullish (a b : JsVal) : JsVal :=
  match a with
  | JUndefined | JNull => b
  | _ => a
  end.

Fixpoint assoc (k : string) (fields : list (string * JsVal)) : JsVal :=
  match fields with
  | [] => JUndefined
  | (k', v) :: rest => if String.eqb k k' then v else assoc k rest
  end.

(** [v?.k] for a key that is not a built-in property of strings or
    arrays: [undefined] on everything but an object that has the key. *)
Definition opt_prop (v : JsVal) (k : string) : JsVal :=
  match v with
  | JObj fields => assoc k fields
  | _ => JUndefined
  end.

(** [a === b] between a value freshly parsed from a response and a value
    kept from an earlier one: primitives compare by value, [NaN] differs
    from itself, and two objects (or arrays) parsed from two bodies are
    never the same reference. *)
Definition strict_eq (a b : JsVal) : bool :=
  match a, b with
  | JUndefined, JUndefined => true
  | JNull, JNull => true
  | JBool x, JBool y => Bool.eqb x y
  | JNum x, JNum y => x =? y
  | JStr x, JStr y => String.eqb x y
  | _, _ => false
  end.

(** Decimal rendering of an integer, as in a template literal. *)
Definition string_of_Z (n : Z) : string :=
  NilZero.string_of_int (Z.to_int n).

Definition join_with (sep : string) (parts : list string) : string :=
  match parts with
  | [] => ""
  | p :: ps => fold_left (fun acc q => acc ++ sep ++ q) ps p
  end.

(** [String(v)], the conversion a template literal applies. *)
Fixpoint to_string (v : JsVal) : string :=
  match v with
  | JUndefined => "undefined"
  | JNull => "null"
  | JBool true => "true"
  | JBool false => "false"
  | JNum n => string_of_Z n
  | JNaN => "NaN"
  | JStr s => s
  | JArr items =>
      join_with ","
        (map (fun x => match x with
                       | JUndefined | JNull => ""
                       | _ => to_string x
                       end) items)
  | JObj _ => "[object Object]"
  end.

(** A number passed where milliseconds are expected.  What matters of a
    double here is whether it is an integer, and where it lies: a number
    that is not an integer is given by the integer just below it. *)
Inductive JsNumber : Type :=
| NInt (n : Z)
| NFrac (below : Z)     (* strictly between [below] and [below + 1] *)
| NInf                  (* Infinity *)
| NNegInf               (* -Infinity *)
| NNaN.

(** [Math.max(x, k)] and [Math.min(x, k)] for an integer [k]. *)
Definition Math_max (x : JsNumber) (k : Z) : JsNumber :=
  match x with
  | NInt n => NInt (Z.max n k)
  | NFrac below => if below <? k then NInt k else NFrac below
  | NInf => NInf
  | NNegInf => NInt k
  | NNaN => NNaN
  end.

Definition Math_min (x : JsNumber) (k : Z) : JsNumber :=
  match x with
  | NInt n => NInt (Z.min n k)
  | NFrac below => if below <? k then NFrac below else NInt k
  | NInf => NInt k
  | NNegInf => NNegInf
  | NNaN => NNaN
  end.

(* ================================================================== *)
(** * Node's [crypto]: SHA-256 (FIPS 180-4) and HMAC (RFC 2104) *)
(* ================================================================== *)

Module Crypto.

Local Open Scope list_scope.

(** 32-bit words are integers reduced with a mask. *)
Definition w32 (x : Z) : Z := Z.land x 0xffffffff.
Definition add32 (x y : Z) : Z := w32 (x + y).
Definition rotr (n x : Z) : Z :=
  w32 (Z.lor (Z.shiftr x n) (Z.shiftl x (32 - n))).
Definition shr (n x : Z) : Z := Z.shiftr x n.
Definition not32 (x : Z) : Z := Z.lxor x 0xffffffff.

Definition Ch (x y z : Z) : Z :=
  Z.lxor (Z.land x y) (Z.land (not32 x) z).
Definition Maj (x y z : Z) : Z :=
  Z.lxor (Z.lxor (Z.land x y) (Z.land x z)) (Z.land y z).
Definition bsig0 (x : Z) : Z := Z.lxor (Z.lxor (rotr 2 x) (rotr 13 x)) (rotr 22 x).
Definition bsig1 (x : Z) : Z := Z.lxor (Z.lxor (rotr 6 x) (rotr 11 x)) (rotr 25 x).
Definition ssig0 (x : Z) : Z := Z.lxor (Z.lxor (rotr 7 x) (rotr 18 x)) (shr 3 x).
Definition ssig1 (x : Z) : Z := Z.lxor (Z.lxor (rotr 17 x) (rotr 19 x)) (shr 10 x).

(** The first sixty-four primes, 2 to 311. *)
Definition is_prime (n : Z) : bool :=
  forallb (fun d => negb (n mod d =? 0))
    (map Z.of_nat (seq 2 (Z.to_nat n - 2))).

Definition first_primes : list Z :=
  filter is_prime (map Z.of_nat (seq 2 310)).

(** The largest [r] below [2^bits] with [r^3 <= n], one bit at a time. *)
Fixpoint cube_root_bits (bits : nat) (n r : Z) : Z :=
  match bits with
  | O => r
  | S bits' =>
      let r' := r + 2 ^ Z.of_nat bits' in
      cube_root_bits bits' n (if r' * r' * r' <=? n then r' else r)
  end.

(** The first 32 bits of the fractional part of a cube root, of a
    square root. *)
Definition frac_cube_root (p : Z) : Z :=
  w32 (cube_root_bits 36 (p * 2 ^ 96) 0).
Definition frac_square_root (p : Z) : Z := w32 (Z.sqrt (p * 2 ^ 64)).

(** The sixty-four round constants come from the cube roots of the
    primes, the initial hash value from the square roots of the first
    eight. *)
Definition round_constants : list Z := map frac_cube_root first_primes.

(** The eight working variables / chaining values. *)
Definition HashState : Type := (Z * Z * Z * Z * Z * Z * Z * Z)%type.

Definition initial_hash : HashState :=
  (frac_square_root 2, frac_square_root 3, frac_square_root 5,
   frac_square_root 7, frac_square_root 11, frac_square_root 13,
   frac_square_root 17, frac_square_root 19).

(** Big-endian bytes of a 32-bit word and back. *)
Definition bytes_of_word (x : Z) : list Z :=
  [ Z.land (Z.shiftr x 24) 255; Z.land (Z.shiftr x 16) 255;
    Z.land (Z.shiftr x 8) 255; Z.land x 255 ].

Fixpoint words_of_bytes (bs : list Z) : list Z :=
  match bs with
  | b0 :: b1 :: b2 :: b3 :: rest =>
      (Z.shiftl b0 24 + Z.shiftl b1 16 + Z.shiftl b2 8 + b3)
        :: words_of_bytes rest
  | _ => []
  end.

(** Padding: a 1 bit, zeros up to 56 mod 64, the bit length on 8 bytes. *)
Definition pad (msg : list Z) : list Z :=
  let len := Z.of_nat (List.length msg) in
  let zeros := Z.to_nat ((55 - len) mod 64) in
  let bits := len * 8 in
  msg ++ [128] ++ repeat 0 zeros
      ++ bytes_of_word (Z.shiftr bits 32) ++ bytes_of_word (w32 bits).

(** Message schedule, kept most recent word first while it is built. *)
Fixpoint extend_schedule (n : nat) (rev_w : list Z) : list Z :=
  match n with
  | O => rev_w
  | S n' =>
      let wt := add32 (add32 (ssig1 (nth 1 rev_w 0)) (nth 6 rev_w 0))
                      (add32 (ssig0 (nth 14 rev_w 0)) (nth 15 rev_w 0)) in
      extend_schedule n' (wt :: rev_w)
  end.

Definition schedule (block : list Z) : list Z :=
  rev (extend_schedule 48 (rev (words_of_bytes block))).

Definition round (s : HashState) (kw : Z * Z) : HashState :=
  let '(a, b, c, d, e, f, g, h) := s in
  let '(k, w) := kw in
  let t1 := add32 (add32 (add32 h (bsig1 e)) (add32 (Ch e f g) k)) w in
  let t2 := add32 (bsig0 a) (Maj a b c) in
  (add32 t1 t2, a, b, c, add32 d t1, e, f, g).

Definition compress (s : HashState) (block : list Z) : HashState :=
  let '(a, b, c, d, e, f, g, h) :=
    fold_left round (combine round_constants (schedule block)) s in
  let '(a0, b0, c0, d0, e0, f0, g0, h0) := s in
  (add32 a0 a, add32 b0 b, add32 c0 c, add32 d0 d,
   add32 e0 e, add32 f0 f, add32 g0 g, add32 h0 h).

Fixpoint hash_blocks (n : nat) (s : HashState) (bs : list Z) : HashState :=
  match n with
  | O => s
  | S n' =>
      match bs with
      | [] => s
      | _ => hash_blocks n' (compress s (firstn 64 bs)) (skipn 64 bs)
      end
  end.

Definition digest_bytes (s : HashState) : list Z :=
  let '(a, b, c, d, e, f, g, h) := s in
  flat_map bytes_of_word [a; b; c; d; e; f; g; h].

Definition sha256 (msg : list Z) : list Z :=
  let padded := pad msg in
  digest_bytes (hash_blocks (List.length padded) initial_hash padded).

(** HMAC with block size 64: a long key is hashed, then the key is
    zero-padded to a block. *)
Definition block_key (key : list Z) : list Z :=
  let k := if (64 <? Z.of_nat (List.length key)) then sha256 key else key in
  k ++ repeat 0 (64 - List.length k)%nat.

Definition hmac_sha256 (key msg : list Z) : list Z :=
  let k := block_key key in
  let inner := sha256 (map (Z.lxor 0x36) k ++ msg) in
  sha256 (map (Z.lxor 0x5c) k ++ inner).

(** A string is taken as its bytes (the UTF-8 encoding of an ASCII or
    already encoded string). *)
Definition bytes_of_string (s : string) : list Z :=
  map (fun c => Z.of_N (N_of_ascii c)) (list_ascii_of_string s).

Definition hex_digit (n : Z) : ascii :=
  nth (Z.to_nat (Z.land n 15))
      (list_ascii_of_string "0123456789abcdef") "0"%char.

Fixpoint hex_of_bytes (bs : list Z) : string :=
  match bs with
  | [] => ""
  | b :: rest =>
      String (hex_digit (Z.shiftr b 4)) (String (hex_digit b) (hex_of_bytes rest))
  end.

(** The three calls the client chains: [createHmac("sha256", key)],
    [.update(data)], [.digest("hex")]. *)
Record Hmac : Type := { hmac_key : string; hmac_data : string }.

Definition createHmac_sha256 (key : string) : Hmac :=
  {| hmac_key := key; hmac_data := "" |}.

Definition update (h : Hmac) (data : string) : Hmac :=
  {| hmac_key := hmac_key h; hmac_data := hmac_data h ++ data |}.

Definition digest_hex (h : Hmac) : string :=
  hex_of_bytes
    (hmac_sha256 (bytes_of_string (hmac_key h)) (bytes_of_string (hmac_data h))).

End Crypto.

(* ================================================================== *)
(** * errors.ts *)
(* ================================================================== *)

(** [NeutronApiError]: the constructor derives the message and the code
    from the body with optional chaining. *)
Record NeutronApiError : Type := {
  message : JsVal;
  status : Z;
  code : JsVal;
  body : JsVal
}.

Definition new_NeutronApiError (st : Z) (b : JsVal) : NeutronApiError :=
  {| message := js_or (opt_prop b "error")
                  (js_or (opt_prop b "message")
                         (JStr ("API error " ++ string_of_Z st)));
     status := st;
     code := opt_prop b "code";
     body := b |}.

Definition isRateLimited (e : NeutronApiError) : bool := status e =? 429.

Definition isAuthError (e : NeutronApiError) : bool :=
  (status e =? 401) || (status e =? 403).

Definition isRetryable (e : NeutronApiError) : bool :=
  (status e =? 429) || (status e >=? 500).

(** Everything a [throw] (or a rejected promise) can carry here. *)
Inductive Thrown : Type :=
| ApiError (e : NeutronApiError)
| NeutronAuthError (msg : JsVal)
| NeutronTimeoutError (timeoutMs : Z)
| NeutronValidationError (msg : string)
| JsError (msg : string)          (* new Error(msg) *)
| JsTypeError                      (* property read on null *)
| JsSyntaxError                    (* response.json() on a body that is not JSON *)
| FetchRejection (name : string)   (* what fetch rejected with, rethrown as is *)
| JsRangeError                     (* AbortSignal.timeout on a delay it refuses *)
| ThrownUndefined.                 (* throw of a variable never assigned *)

Definition timeout_message (timeoutMs : Z) : string :=
  "Request timed out after " ++ string_of_Z timeoutMs ++ "ms".

(* ================================================================== *)
(** * The world (session, clock, network) and the runs over it *)
(* ================================================================== *)

Record Response : Type := {
  resp_status : Z;
  resp_statusText : string;
  resp_json : option JsVal;   (* None: json() rejects, the body is not JSON *)
  resp_has_body : bool        (* response.body is a stream, not null *)
}.

(** [response.ok] *)
Definition ok (r : Response) : bool :=
  (200 <=? resp_status r) && (resp_status r <=? 299).

Inductive Payload : Type :=
| NoBody
| TextBody (text : string)
| JsonBody (v : JsVal).        (* the text JSON.stringify(v) *)

Record Request : Type := {
  req_method : string;
  req_url : string;
  req_headers : list (string * string);
  req_body : Payload
}.

(** How one call of [fetch] settles. *)
Inductive FetchResult : Type :=
| Responded (r : Response)
| Rejected (name : string).    (* err.name of the rejection *)

(** One answer of the network: how long the call takes, how it settles. *)
Record Exchange : Type := { elapsed : Z; settles : FetchResult }.

Inductive Event : Type :=
| EvSleep (ms : Z)
    (* await new Promise(r => setTimeout(r, ms)) *)
| EvFetch (req : Request) (abortAfter : Z) (res : FetchResult)
    (* fetch(url, init) under an abort signal firing after abortAfter ms *)
| EvLog (ts : Z) (text : string) (extra : option JsVal)
    (* console.error of one diagnostic line stamped ts *)
| EvStateChange (state : JsVal) (txn : JsVal).
    (* options.onStateChange(state, txn) *)

(** The mutable fields of [HttpClient] sit next to its configuration. *)
Record Client : Type := {
  apiKey : string;
  apiSecret : string;
  baseUrl : string;
  timeout : Z;
  maxRetries : Z;
  debug : bool;
  accessToken : JsVal;
  accountId : JsVal;
  tokenExpiry : option Z       (* None is NaN *)
}.

Record World : Type := {
  client : Client;
  now : Z;                     (* Date.now() *)
  network : list Exchange      (* the answers the coming fetch calls get *)
}.

Inductive Completion (A : Type) : Type :=
| Return (a : A)
| Throw (t : Thrown)
| OutOfFuel.                   (* a loop of the model ran out of fuel *)
Arguments Return {A} a.
Arguments Throw {A} t.
Arguments OutOfFuel {A}.

Record Run (A : Type) : Type := {
  outcome : Completion A;
  final : World;
  events : list Event
}.
Arguments outcome {A} r.
Arguments final {A} r.
Arguments events {A} r.

Definition M (A : Type) : Type := World -> Run A.

Definition ret {A} (a : A) : M A :=
  fun w => {| outcome := Return a; final := w; events := [] |}.

Definition throw {A} (t : Thrown) : M A :=
  fun w => {| outcome := Throw t; final := w; events := [] |}.

Definition out_of_fuel {A} : M A :=
  fun w => {| outcome := OutOfFuel; final := w; events := [] |}.

Definition bind {A B} (m : M A) (k : A -> M B) : M B :=
  fun w =>
    let r := m w in
    match outcome r with
    | Return a =>
        let r' := k a (final r) in
        {| outcome := outcome r'; final := final r';
           events := (events r ++ events r')%list |}
    | Throw t => {| outcome := Throw t; final := final r; events := events r |}
    | OutOfFuel => {| outcome := OutOfFuel; final := final r; events := events r |}
    end.

(** [try { m } catch (err) { handler(err) }] *)
Definition try_catch {A} (m : M A) (handler : Thrown -> M A) : M A :=
  fun w =>
    let r := m w in
    match outcome r with
    | Throw t =>
        let r' := handler t (final r) in
        {| outcome := outcome r'; final := final r';
           events := (events r ++ events r')%list |}
    | _ => r
    end.

Notation "x <- m ;; k" := (bind m (fun x => k))
  (at level 61, m at next level, right associativity).
Notation "m ;; k" := (bind m (fun _ => k))
  (at level 61, right associativity).

Definition emit (e : Event) : M unit :=
  fun w => {| outcome := Return tt; final := w; events := [e] |}.

Definition get_client : M Client :=
  fun w => {| outcome := Return (client w); final := w; events := [] |}.

Definition set_client (c : Client) : M unit :=
  fun w => {| outcome := Return tt;
              final := {| client := c; now := now w; network := network w |};
              events := [] |}.

Definition Date_now : M Z :=
  fun w => {| outcome := Return (now w); final := w; events := [] |}.

(** [await new Promise(r => setTimeout(r, ms))]: the clock moves by the
    delay asked for. *)
Definition sleep (ms : Z) : M unit :=
  fun w => {| outcome := Return tt;
              final := {| client := client w; now := now w + Z.max 0 ms;
                          network := network w |};
              events := [EvSleep ms] |}.

(** [await fetch(url, {...init, signal})]: the next answer of the network
    is consumed; a network with nothing left to say rejects the call. *)
Definition fetch (req : Request) (abortAfter : Z) : M Response :=
  fun w =>
    match network w with
    | [] =>
        {| outcome := Throw (FetchRejection "TypeError"); final := w;
           events := [EvFetch req abortAfter (Rejected "TypeError")] |}
    | x :: rest =>
        {| outcome := match settles x with
                      | Responded r => Return r
                      | Rejected name => Throw (FetchRejection name)
                      end;
           final := {| client := client w; now := now w + elapsed x;
                       network := rest |};
           events := [EvFetch req abortAfter (settles x)] |}
    end.

(** [await response.json()] *)
Definition json (r : Response) : M JsVal :=
  match resp_json r with
  | Some v => ret v
  | None => throw JsSyntaxError
  end.

(** [await response.json().catch(() => ({}))] *)
Definition json_or_empty (r : Response) : JsVal :=
  match resp_json r with
  | Some v => v
  | None => JObj []
  end.

(** [v.k], which throws on [null] and [undefined]. *)
Definition prop (v : JsVal) (k : string) : M JsVal :=
  match v with
  | JUndefined | JNull => throw JsTypeError
  | _ => ret (opt_prop v k)
  end.

(* ================================================================== *)
(** * client.ts: [HttpClient] *)
(* ================================================================== *)

Module HttpClient.

Definition DEFAULT_BASE_URL : string := "https://api.neutron.me".
Definition DEFAULT_TIMEOUT : Z := 30000.
Definition DEFAULT_MAX_RETRIES : Z := 2.
Definition TOKEN_REFRESH_BUFFER_MS : Z := 60000.

Record NeutronConfig : Type := {
  cfg_apiKey : string;
  cfg_apiSecret : string;
  cfg_baseUrl : option string;
  cfg_timeout : option Z;
  cfg_maxRetries : option Z;
  cfg_debug : option bool
}.

Fixpoint drop_slashes (cs : list ascii) : list ascii :=
  match cs with
  | c :: rest => if Ascii.eqb c "/"%char then drop_slashes rest else cs
  | [] => []
  end.

(** [s.replace(/\/+$/, "")] *)
Definition strip_trailing_slashes (s : string) : string :=
  string_of_list_ascii (rev (drop_slashes (rev (list_ascii_of_string s)))).

Definition default {A} (o : option A) (d : A) : A :=
  match o with Some a => a | None => d end.

Definition constructor (config : NeutronConfig) : Completion Client :=
  if String.eqb (cfg_apiKey config) "" then
    Throw (NeutronAuthError (JStr "apiKey is required"))
  else if String.eqb (cfg_apiSecret config) "" then
    Throw (NeutronAuthError (JStr "apiSecret is required"))
  else
    Return
      {| apiKey := cfg_apiKey config;
         apiSecret := cfg_apiSecret config;
         baseUrl :=
           strip_trailing_slashes
             (match cfg_baseUrl config with
              | Some u => if String.eqb u "" then DEFAULT_BASE_URL else u
              | None => DEFAULT_BASE_URL
              end);
         timeout := default (cfg_timeout config) DEFAULT_TIMEOUT;
         maxRetries := default (cfg_maxRetries config) DEFAULT_MAX_RETRIES;
         debug := default (cfg_debug config) false;
         accessToken := JNull;
         accountId := JNull;
         tokenExpiry := Some 0 |}.

(** [log(message, data?)]: silent unless [debug]; the line carries the
    time of the call, the message and, for a truthy [data], its JSON. *)
Definition log (text : string) (data : JsVal) : M unit :=
  c <- get_client ;;
  if negb (debug c) then ret tt
  else
    ts <- Date_now ;;
    emit (EvLog ts text (if truthy data then Some data else None)).

(* ---- Auth ---- *)

(** The [stringToSign] of [generateSignature]. *)
Definition stringToSign (c : Client) (payload : string) : string :=
  apiKey c ++ "&payload=" ++ payload.

Definition generateSignature (c : Client) (payload : string) : string :=
  Crypto.digest_hex
    (Crypto.update (Crypto.createHmac_sha256 (apiSecret c))
       (stringToSign c payload)).

Definition isTokenValid (w : World) : bool :=
  truthy (accessToken (client w))
  && truthy (accountId (client w))
  && match tokenExpiry (client w) with
     | Some expiry => now w <? expiry - TOKEN_REFRESH_BUFFER_MS
     | None => false
     end.

Definition get_isTokenValid : M bool :=
  fun w => ret (isTokenValid w) w.

(** [rawFetch(url, init)]: the call runs under a timer of [timeout] ms;
    an [AbortError] becomes a [NeutronTimeoutError], anything else is
    rethrown. *)
Definition rawFetch (req : Request) : M Response :=
  c <- get_client ;;
  try_catch (fetch req (timeout c))
    (fun err =>
       match err with
       | FetchRejection name =>
           if String.eqb name "AbortError"
           then throw (NeutronTimeoutError (timeout c))
           else throw err
       | _ => throw err
       end).

Definition quote : string := String "034"%char EmptyString.

(** [JSON.stringify({ test: "auth" })] *)
Definition auth_payload : string :=
  "{" ++ quote ++ "test" ++ quote ++ ":" ++ quote ++ "auth" ++ quote ++ "}".

Section Platform.

(** [new Date(v).getTime()], [None] for [NaN]. *)
Variable Date_getTime : JsVal -> option Z.

(** [authenticate()].  The statement [this.log("Authenticated", ...)]
    stands after [return result] in the source and is never run. *)
Definition authenticate : M JsVal :=
  c <- get_client ;;
  let payload := auth_payload in
  let signature := generateSignature c payload in
  response <- rawFetch
    {| req_method := "POST";
       req_url := baseUrl c ++ "/api/v2/authentication/token-signature";
       req_headers := [ ("Content-Type", "application/json");
                        ("X-Api-Key", apiKey c);
                        ("X-Api-Signature", signature) ];
       req_body := TextBody payload |} ;;
  if negb (ok response) then
    let b := json_or_empty response in
    err <- prop b "error" ;;
    throw (NeutronAuthError
             (js_or err
                (js_or (opt_prop b "message")
                   (JStr ("Authentication failed ("
                          ++ string_of_Z (resp_status response) ++ ")")))))
  else
    raw <- json response ;;
    data <- prop raw "data" ;;
    let result := js_nullish data raw in
    let expiredAt := opt_prop result "expiredAt" in
    c <- get_client ;;
    set_client
      {| apiKey := apiKey c; apiSecret := apiSecret c; baseUrl := baseUrl c;
         timeout := timeout c; maxRetries := maxRetries c; debug := debug c;
         accountId := opt_prop result "accountId";
         accessToken := opt_prop result "accessToken";
         tokenExpiry := match expiredAt with
                        | JNum n => Some n
                        | JNaN => None
                        | _ => Date_getTime expiredAt
                        end |} ;;
    ret result.

Definition ensureAuth : M unit :=
  valid <- get_isTokenValid ;;
  if negb valid then (authenticate ;; ret tt) else ret tt.

Definition getAccountId : M JsVal :=
  c <- get_client ;;
  if negb (truthy (accountId c)) then
    throw (NeutronAuthError
             (JStr "Not authenticated. Call a method first or use neutron.account.get()."))
  else ret (accountId c).

Definition ensureAuthAndGetAccountId : M JsVal :=
  ensureAuth ;;
  c <- get_client ;;
  ret (accountId c).

Definition getAuthHeaders : M (list (string * string)) :=
  ensureAuth ;;
  c <- get_client ;;
  ret [ ("Authorization", "Bearer " ++ to_string (accessToken c)) ].

(* ---- HTTP ---- *)

Definition clear_accessToken : M unit :=
  c <- get_client ;;
  set_client
    {| apiKey := apiKey c; apiSecret := apiSecret c; baseUrl := baseUrl c;
       timeout := timeout c; maxRetries := maxRetries c; debug := debug c;
       accountId := accountId c;
       accessToken := JNull;
       tokenExpiry := tokenExpiry c |}.

(** Throwing [lastError]: [undefined] when nothing was recorded. *)
Definition throw_lastError {A} (lastError : option NeutronApiError) : M A :=
  match lastError with
  | Some e => throw (ApiError e)
  | None => throw ThrownUndefined
  end.

(** The [for (let attempt = 0; attempt <= this.maxRetries; attempt++)]
    loop of [request].  [remaining] counts the values of [attempt] that
    still satisfy the guard, so the guard is false exactly when it is 0. *)
Fixpoint request_loop (remaining : nat) (method path : string) (reqBody : JsVal)
         (attempt : Z) (lastError : option NeutronApiError) : M JsVal :=
  match remaining with
  | O => throw_lastError lastError
  | S remaining' =>
      (if 0 <? attempt then
         sleep (2 ^ (attempt - 1) * 1000) ;;
         valid <- get_isTokenValid ;;
         if negb valid then (authenticate ;; ret tt) else ret tt
       else ret tt) ;;
      c <- get_client ;;
      let url := baseUrl c ++ path in
      log (method ++ " " ++ path) JUndefined ;;
      let headers :=
        [ ("Authorization", "Bearer " ++ to_string (accessToken c));
          ("Content-Type", "application/json") ] in
      response <- rawFetch
        {| req_method := method; req_url := url; req_headers := headers;
           req_body := if truthy reqBody then JsonBody reqBody else NoBody |} ;;
      if ok response then json response
      else
        let errorBody := json_or_empty response in
        let apiError := new_NeutronApiError (resp_status response) errorBody in
        if (resp_status response =? 401) && (attempt <? maxRetries c) then
          clear_accessToken ;;
          request_loop remaining' method path reqBody (attempt + 1) (Some apiError)
        else if isRetryable apiError && (attempt <? maxRetries c) then
          request_loop remaining' method path reqBody (attempt + 1) (Some apiError)
        else throw (ApiError apiError)
  end.

Definition request (method path : string) (reqBody : JsVal) : M JsVal :=
  ensureAuth ;;
  c <- get_client ;;
  request_loop (Z.to_nat (maxRetries c + 1)) method path reqBody 0 None.

Definition get (path : string) : M JsVal := request "GET" path JUndefined.
Definition post (path : string) (b : JsVal) : M JsVal := request "POST" path b.
Definition put (path : string) (b : JsVal) : M JsVal := request "PUT" path b.
Definition del (path : string) : M JsVal := request "DELETE" path JUndefined.

End Platform.

End HttpClient.

(* ================================================================== *)
(** * utils.ts: the state tables *)
(* ================================================================== *)

Module Utils.

Definition FinalStates : list string :=
  [ "completed"; "expired"; "rejected"; "error"; "usercanceled" ].

Definition TransactionStates : list string :=
  [ "quoted"; "userconfirmed"; "srccreated"; "srcsent"; "srcintent";
    "srcpendconfirmfill"; "srcconfirmfilled"; "destpendsent"; "destsent";
    "completed"; "expired"; "rejected"; "error"; "usercanceled" ].

End Utils.

(* ================================================================== *)
(** * sanitize.ts *)
(* ================================================================== *)

Definition in_range (lo hi c : ascii) : bool :=
  (nat_of_ascii lo <=? nat_of_ascii c)%nat && (nat_of_ascii c <=? nat_of_ascii hi)%nat.

(** The class [a-zA-Z0-9\-_.] *)
Definition allowed_char (c : ascii) : bool :=
  in_range "a" "z" c || in_range "A" "Z" c || in_range "0" "9" c
  || Ascii.eqb c "-" || Ascii.eqb c "_" || Ascii.eqb c ".".

Fixpoint filter_string (keep : ascii -> bool) (s : string) : string :=
  match s with
  | EmptyString => EmptyString
  | String c rest =>
      if keep c then String c (filter_string keep rest)
      else filter_string keep rest
  end.

(** [s.includes("..")] *)
Fixpoint includes_dotdot (s : string) : bool :=
  match s with
  | String "." (String "." _ as rest) => true
  | String _ rest => includes_dotdot rest
  | EmptyString => false
  end.

Definition sanitizePathParam (value name : string) : M string :=
  if String.eqb value "" then
    throw (NeutronValidationError
             (name ++ " is required and must be a non-empty string."))
  else
    let sanitized := filter_string allowed_char value in
    if negb (String.eqb sanitized value) then
      throw (NeutronValidationError
               (name ++ " contains invalid characters. Only alphanumeric, hyphens, underscores, and dots are allowed."))
    else if includes_dotdot sanitized then
      throw (NeutronValidationError
               (name ++ " cannot contain path traversal sequences."))
    else ret sanitized.

(* ================================================================== *)
(** * resources/transactions.ts: [TransactionsResource] *)
(* ================================================================== *)

Module TransactionsResource.

Section Platform.

Variable Date_getTime : JsVal -> option Z.

Definition confirm (txnId : string) : M JsVal :=
  sanitizePathParam txnId "txnId" ;;
  HttpClient.put Date_getTime ("/api/v2/transaction/" ++ txnId ++ "/confirm") JUndefined.

Definition get (txnId : string) : M JsVal :=
  sanitizePathParam txnId "txnId" ;;
  HttpClient.get Date_getTime ("/api/v2/transaction/" ++ txnId).

(** [cancel(_txnId)]: deprecated, the endpoint is not available. *)
Definition cancel (_txnId : string) : M JsVal :=
  throw (JsError
    "transactions.cancel() is not available. Unconfirmed transactions expire automatically.").

Record WaitOptions : Type := {
  intervalMs : option Z;
  timeoutMs : option Z;
  onStateChange : bool
    (* whether a callback was supplied: the callback is the caller's code,
       a call of it is recorded in the trace and is taken to return *)
}.

Definition FINAL_STATES : list string :=
  [ "completed"; "failed"; "expired"; "rejected"; "error"; "usercanceled" ].

(** [list.includes(v)] on a list of strings *)
Definition includes (l : list string) (v : JsVal) : bool :=
  match v with
  | JStr s => existsb (String.eqb s) l
  | _ => false
  end.

(** The [while (Date.now() - start < timeout)] loop. *)
Fixpoint wait_loop (fuel : nat) (txnId : string) (interval tmo : Z)
         (callback : bool) (start : Z) (lastState : JsVal) : M JsVal :=
  match fuel with
  | O => out_of_fuel
  | S fuel' =>
      t <- Date_now ;;
      if t - start <? tmo then
        txn <- get txnId ;;
        txnState <- prop txn "txnState" ;;
        lastState' <-
          (if negb (strict_eq txnState lastState) then
             (if callback then emit (EvStateChange txnState txn) else ret tt) ;;
             ret txnState
           else ret lastState) ;;
        if includes FINAL_STATES txnState then ret txn
        else
          sleep interval ;;
          wait_loop fuel' txnId interval tmo callback start lastState'
      else
        throw (JsError ("Transaction " ++ txnId ++ " did not complete within "
                        ++ string_of_Z tmo ++ "ms"))
  end.

(** Every pass of the loop that goes on to the next one has had an answer
    from the network, so one unit of fuel per answer left, and one more,
    is enough (see [wait_loop_total]). *)
Definition waitForCompletion (txnId : string) (options : option WaitOptions)
  : M JsVal :=
  let interval := HttpClient.default (match options with
                                      | Some o => intervalMs o | None => None
                                      end) 3000 in
  let tmo := HttpClient.default (match options with
                                 | Some o => timeoutMs o | None => None
                                 end) 300000 in
  let callback := match options with Some o => onStateChange o | None => false end in
  start <- Date_now ;;
  fun w =>
    wait_loop (S (List.length (network w))) txnId interval tmo callback start
      (JStr "") w.

(* ---- subscribe ---- *)

Definition is_hex (c : ascii) : bool :=
  in_range "0" "9" c || in_range "a" "f" c || in_range "A" "F" c.

Fixpoint eat_hex (n : nat) (cs : list ascii) : option (list ascii) :=
  match n with
  | O => Some cs
  | S n' =>
      match cs with
      | c :: rest => if is_hex c then eat_hex n' rest else None
      | [] => None
      end
  end.

Definition eat_dash (cs : list ascii) : option (list ascii) :=
  match cs with
  | c :: rest => if Ascii.eqb c "-" then Some rest else None
  | [] => None
  end.

Definition and_then {A B} (o : option A) (f : A -> option B) : option B :=
  match o with Some a => f a | None => None end.

(** [/^[0-9a-f]{8}-[0-9a-f]{4}-[0-9a-f]{4}-[0-9a-f]{4}-[0-9a-f]{12}$/i.test(s)] *)
Definition UUID_RE_test (s : string) : bool :=
  match
    and_then (eat_hex 8 (list_ascii_of_string s)) (fun r1 =>
    and_then (eat_dash r1) (fun r2 =>
    and_then (eat_hex 4 r2) (fun r3 =>
    and_then (eat_dash r3) (fun r4 =>
    and_then (eat_hex 4 r4) (fun r5 =>
    and_then (eat_dash r5) (fun r6 =>
    and_then (eat_hex 4 r6) (fun r7 =>
    and_then (eat_dash r7) (fun r8 =>
    eat_hex 12 r8))))))))
  with
  | Some [] => true
  | _ => false
  end.

(** [Math.min(Math.max(timeoutMs, 5_000), 300_000)] *)
Definition clamp_timeout (ms : JsNumber) : JsNumber :=
  Math_min (Math_max ms 5000) 300000.

(** [AbortSignal.timeout(delay)]: Node takes an integer of 32 bits and
    throws a [RangeError] on any other number. *)
Definition AbortSignal_timeout (delay : JsNumber) : M Z :=
  match delay with
  | NInt n =>
      if (0 <=? n) && (n <=? 4294967295) then ret n else throw JsRangeError
  | _ => throw JsRangeError
  end.

(** [subscribe(transactionId, timeoutMs = 60_000)], from the first
    [next()] of the generator up to the connection being open: the
    identifier check, the clamp, then the argument of [fetch] evaluated
    in the order it is written (the auth headers, then
    [AbortSignal.timeout(clampedTimeout)]), the streaming [fetch] under
    that signal and the check of the response.  The value returned is the
    response whose body the frame loop then reads. *)
Definition subscribe (transactionId : string) (timeoutArg : option JsNumber)
  : M Response :=
  let timeoutMs := HttpClient.default timeoutArg (NInt 60000) in
  if negb (UUID_RE_test transactionId) then
    throw (JsError "Invalid transactionId: must be a UUID.")
  else
    let clampedTimeout := clamp_timeout timeoutMs in
    c <- get_client ;;
    let url := baseUrl c ++ "/api/v2/events/stream?transactionId=" ++ transactionId in
    authHeaders <- HttpClient.getAuthHeaders Date_getTime ;;
    signal <- AbortSignal_timeout clampedTimeout ;;
    response <- fetch
      {| req_method := "GET"; req_url := url;
         req_headers := (("Accept", "text/event-stream") :: authHeaders)%list;
         req_body := NoBody |}
      signal ;;
    if negb (ok response) || negb (resp_has_body response) then
      throw (JsError ("SSE connection failed: "
                      ++ string_of_Z (resp_status response) ++ " "
                      ++ resp_statusText response))
    else ret response.

End Platform.

End TransactionsResource.

(* ================================================================== *)
(** * Reading a trace *)
(* ================================================================== *)

Definition has_header (name : string) (req : Request) : bool :=
  existsb (fun h => String.eqb (fst h) name) (req_headers req).

(** Calls made by [request] carry the bearer token; the call made by
    [authenticate] carries the signature instead. *)
Definition is_api_call (req : Request) : bool := has_header "Authorization" req.
Definition is_auth_call (req : Request) : bool := has_header "X-Api-Signature" req.

(** The delays slept, in order. *)
Fixpoint sleeps (evs : list Event) : list Z :=
  match evs with
  | [] => []
  | EvSleep ms :: rest => ms :: sleeps rest
  | _ :: rest => sleeps rest
  end.

(** The authentication requests issued. *)
Fixpoint auth_calls (evs : list Event) : list Request :=
  match evs with
  | [] => []
  | EvFetch req _ _ :: rest =>
      if is_auth_call req then req :: auth_calls rest else auth_calls rest
  | _ :: rest => auth_calls rest
  end.

(** The diagnostic lines written. *)
Fixpoint log_lines (evs : list Event) : list (Z * string * option JsVal) :=
  match evs with
  | [] => []
  | EvLog ts text extra :: rest => (ts, text, extra) :: log_lines rest
  | _ :: rest => log_lines rest
  end.

(** The states handed to [onStateChange], in order. *)
Fixpoint callbacks (evs : list Event) : list JsVal :=
  match evs with
  | [] => []
  | EvStateChange state _ :: rest => state :: callbacks rest
  | _ :: rest => callbacks rest
  end.

(** What the retry loop of [request] does, seen from outside: it backs
    off, or it dispatches the request. *)
Inductive Step : Type :=
| Backoff (ms : Z)
| Dispatch.

Fixpoint attempt_view (evs : list Event) : list Step :=
  match evs with
  | [] => []
  | EvSleep ms :: rest => Backoff ms :: attempt_view rest
  | EvFetch req _ _ :: rest =>
      if is_api_call req then Dispatch :: attempt_view rest
      else attempt_view rest
  | _ :: rest => attempt_view rest
  end.

(** The schedule of [n] attempts numbered from [attempt]: each attempt
    after attempt 0 is preceded by a backoff of [2^(attempt-1)] seconds. *)
Fixpoint attempt_schedule (attempt : Z) (n : nat) : list Step :=
  match n with
  | O => []
  | S n' =>
      ((if 0 <? attempt then [Backoff (2 ^ (attempt - 1) * 1000)] else [])
         ++ Dispatch :: attempt_schedule (attempt + 1) n')%list
  end.

(** The bodies [request] handed back to its caller: the JSON of the 2xx
    answers to its calls. *)
Fixpoint returned_bodies (evs : list Event) : list JsVal :=
  match evs with
  | [] => []
  | EvFetch req _ (Responded r) :: rest =>
      if is_api_call req && ok r then
        match resp_json r with
        | Some v => v :: returned_bodies rest
        | None => returned_bodies rest
        end
      else returned_bodies rest
  | _ :: rest => returned_bodies rest
  end.

(** The states a poll loop read off those bodies ([txn.txnState] cannot
    be read off [null]). *)
Fixpoint states_of (bodies : list JsVal) : list JsVal :=
  match bodies with
  | [] => []
  | (JNull | JUndefined) :: rest => states_of rest
  | txn :: rest => opt_prop txn "txnState" :: states_of rest
  end.

Definition observed_states (evs : list Event) : list JsVal :=
  states_of (returned_bodies evs).

(** Modelled on the words of the specification: the observed states with
    each state equal to the one observed just before it dropped, the
    comparison starting from [last]. *)
Fixpoint transitions (last : JsVal) (observed : list JsVal) : list JsVal :=
  match observed with
  | [] => []
  | s :: rest =>
      if strict_eq s last then transitions last rest
      else s :: transitions s rest
  end.

(** Modelled on the words of the specification: the lowercase-hex
    HMAC-SHA256, keyed by the secret, of [{apiKey}&payload={payload}]. *)
Definition sign_spec (key secret payload : string) : string :=
  Crypto.hex_of_bytes
    (Crypto.hmac_sha256 (Crypto.bytes_of_string secret)
       (Crypto.bytes_of_string (key ++ "&payload=" ++ payload))).

Definition lower_hex_char (c : ascii) : bool :=
  in_range "0" "9" c || in_range "a" "f" c.

(** A run with more events in front. *)
Definition after {A} (evs : list Event) (r : Run A) : Run A :=
  {| outcome := outcome r; final := final r; events := (evs ++ events r)%list |}.

(** The client with its access token cleared. *)
Definition with_token_cleared (w : World) : World :=
  {| client :=
       {| apiKey := apiKey (client w); apiSecret := apiSecret (client w);
          baseUrl := baseUrl (client w); timeout := timeout (client w);
          maxRetries := maxRetries (client w); debug := debug (client w);
          accountId := accountId (client w);
          accessToken := JNull;
          tokenExpiry := tokenExpiry (client w) |};
     now := now w; network := network w |}.


(* ================================================================== *)
(** * The parts of one pass of the retry loop *)
(* ================================================================== *)

(** The request [authenticate] sends. *)
Definition auth_request (c : Client) : Request :=
  {| req_method := "POST";
     req_url := baseUrl c ++ "/api/v2/authentication/token-signature";
     req_headers := [ ("Content-Type", "application/json");
                      ("X-Api-Key", apiKey c);
                      ("X-Api-Signature",
                       HttpClient.generateSignature c HttpClient.auth_payload) ];
     req_body := TextBody HttpClient.auth_payload |}.

(** The request one attempt of [request] sends. *)
Definition api_request (c : Client) (method path : string) (reqBody : JsVal)
  : Request :=
  {| req_method := method;
     req_url := baseUrl c ++ path;
     req_headers :=
       [ ("Authorization", "Bearer " ++ to_string (accessToken c));
         ("Content-Type", "application/json") ];
     req_body := if truthy reqBody then JsonBody reqBody else NoBody |}.

Section LoopParts.

Variable Date_getTime : JsVal -> option Z.

(** The head of the loop body: [if (attempt > 0) { ... }]. *)
Definition backoff (attempt : Z) : M unit :=
  if 0 <? attempt then
    sleep (2 ^ (attempt - 1) * 1000) ;;
    valid <- HttpClient.get_isTokenValid ;;
    if negb valid then (HttpClient.authenticate Date_getTime ;; ret tt) else ret tt
  else ret tt.

(** The loop body up to and including [await this.rawFetch(...)]. *)
Definition dispatch (method path : string) (reqBody : JsVal) (attempt : Z)
  : M Response :=
  backoff attempt ;;
  c <- get_client ;;
  HttpClient.log (method ++ " " ++ path) JUndefined ;;
  HttpClient.rawFetch (api_request c method path reqBody).

(** The rest of the loop body, [remaining] passes being left after it. *)
Definition settle (remaining : nat) (method path : string) (reqBody : JsVal)
           (attempt : Z) (response : Response) : M JsVal :=
  fun w =>
    if ok response then json response w
    else
      let apiError :=
        new_NeutronApiError (resp_status response) (json_or_empty response) in
      if (resp_status response =? 401) && (attempt <? maxRetries (client w)) then
        HttpClient.request_loop Date_getTime remaining method path reqBody
          (attempt + 1) (Some apiError) (with_token_cleared w)
      else if isRetryable apiError && (attempt <? maxRetries (client w)) then
        HttpClient.request_loop Date_getTime remaining method path reqBody
          (attempt + 1) (Some apiError) w
      else throw (ApiError apiError) w.

End LoopParts.

(** The configuration of a client, which no operation changes. *)
Definition same_config (c c' : Client) : Prop :=
  apiKey c' = apiKey c /\ apiSecret c' = apiSecret c /\ baseUrl c' = baseUrl c
  /\ timeout c' = timeout c /\ maxRetries c' = maxRetries c /\ debug c' = debug c.

(** A fetch event whose call was aborted by its timer. *)
Definition timed_out (e : Event) : bool :=
  match e with
  | EvFetch _ _ (Rejected name) => String.eqb name "AbortError"
  | _ => false
  end.

(* ================================================================== *)
(** * Vocabulary of the statements *)
(* ================================================================== *)

(** A list that starts another one. *)
Definition starts {A} (l whole : list A) : Prop :=
  exists rest, whole = (l ++ rest)%list.

(** The number of dispatched calls in a view of the retry loop. *)
Fixpoint count_dispatch (steps : list Step) : nat :=
  match steps with
  | [] => 0
  | Dispatch :: rest => S (count_dispatch rest)
  | Backoff _ :: rest => count_dispatch rest
  end.

(** Events of a run that did nothing but, possibly, authenticate. *)
Definition auth_only (evs : list Event) : Prop :=
  evs = [] \/ exists c t res, evs = [EvFetch (auth_request c) t res].

(** The world once a timer of [ms] has fired. *)
Definition slept (ms : Z) (w : World) : World :=
  {| client := client w; now := now w + Z.max 0 ms; network := network w |}.

(** [isTokenValid] for a client read at time [t]. *)
Definition valid_at (c : Client) (t : Z) : bool :=
  HttpClient.isTokenValid {| client := c; now := t; network := [] |}.

(** The diagnostic line of an attempt made at time [t]. *)
Definition attempt_line (c : Client) (t : Z) (m p : string) : list Event :=
  if debug c then [EvLog t (m ++ " " ++ p) None] else [].

(** The body a run handed back, if it returned. *)
Definition returned (o : Completion JsVal) : list JsVal :=
  match o with
  | Return v => [v]
  | _ => []
  end.

Definition nullish (v : JsVal) : bool :=
  match v with
  | JNull | JUndefined => true
  | _ => false
  end.

(** [FINAL_STATES.includes(state)] *)
Definition terminal (s : JsVal) : bool :=
  TransactionsResource.includes TransactionsResource.FINAL_STATES s.

(** The callback events of one pass of the poll loop: the state is
    reported when it differs from the last one seen and a callback was
    supplied. *)
Definition report (callback : bool) (last s txn : JsVal) : list Event :=
  if negb (strict_eq s last) && callback then [EvStateChange s txn] else [].

(** [lastState] after a pass that observed [s]. *)
Definition next_last (last s : JsVal) : JsVal :=
  if negb (strict_eq s last) then s else last.

(** The options of [waitForCompletion] with their defaults applied. *)
Definition wait_interval (options : option TransactionsResource.WaitOptions) : Z :=
  HttpClient.default
    (match options with Some o => TransactionsResource.intervalMs o | None => None end)
    3000.

Definition wait_timeout (options : option TransactionsResource.WaitOptions) : Z :=
  HttpClient.default
    (match options with Some o => TransactionsResource.timeoutMs o | None => None end)
    300000.

Definition wait_callback (options : option TransactionsResource.WaitOptions) : bool :=
  match options with Some o => TransactionsResource.onStateChange o | None => false end.

(** The request [subscribe] opens the stream with. *)
Definition stream_request (c : Client) (transactionId : string)
           (authHeaders : list (string * string)) : Request :=
  {| req_method := "GET";
     req_url := baseUrl c ++ "/api/v2/events/stream?transactionId=" ++ transactionId;
     req_headers := (("Accept", "text/event-stream") :: authHeaders)%list;
     req_body := NoBody |}.

(** Modelled on the words of the specification: the canonical form of
    an identifier, groups of 8, 4, 4, 4 and 12 hexadecimal digits (either
    case) separated by hyphens.  The hexadecimal digits are listed here,
    independently of the character class the code tests. *)
Definition hexadecimal_digits : list ascii :=
  list_ascii_of_string "0123456789abcdefABCDEF".

Definition hex_group (n : nat) (g : list ascii) : Prop :=
  List.length g = n /\ Forall (fun c => In c hexadecimal_digits) g.

Definition canonical_uuid (s : string) : Prop :=
  exists g1 g2 g3 g4 g5 : list ascii,
    list_ascii_of_string s
    = (g1 ++ "-"%char :: g2 ++ "-"%char :: g3 ++ "-"%char :: g4 ++ "-"%char :: g5)%list
    /\ hex_group 8 g1 /\ hex_group 4 g2 /\ hex_group 4 g3 /\ hex_group 4 g4
    /\ hex_group 12 g5.

(** Modelled on the words of the specification: a number of
    milliseconds clamped to the range from 5,000 to 300,000. *)
Definition clamp_spec (n : Z) : Z :=
  if n <? 5000 then 5000 else if 300000 <? n then 300000 else n.

(** The timer the stream runs under, for each number a caller can pass:
    an integer or an infinity is clamped; so is a number that is not an
    integer when it lies outside the range; a number that is not an
    integer inside the range, and [NaN], give no timer at all. *)
Definition effective_timeout (ms : JsNumber) : option Z :=
  match ms with
  | NInt n => Some (clamp_spec n)
  | NFrac below =>
      if below <? 5000 then Some 5000
      else if 300000 <=? below then Some 300000
      else None
  | NInf => Some 300000
  | NNegInf => Some 5000
  | NNaN => None
  end.

(** A diagnostic line that shows the method and the path and nothing
    else. *)
Definition plain_line (m p : string) (line : Z * string * option JsVal) : Prop :=
  snd (fst line) = m ++ " " ++ p /\ snd line = None.

(** The lines of a run of [request]: with [debug] on one per dispatched
    call, each made of the method and the path; none with [debug] off. *)
Definition lines_follow_calls (m p : string) (w : World) (evs : list Event)
  : Prop :=
  List.length (log_lines evs)
  = (if debug (client w) then count_dispatch (attempt_view evs) else 0%nat)
  /\ Forall (plain_line m p) (log_lines evs).

(** What a run of one of the client's operations always satisfies: the
    configuration is kept, the fuel of the model is not involved, answers
    of the network are only ever consumed, and a call aborted by its timer
    is the last thing that happens, surfacing as a [NeutronTimeoutError]
    that carries the configured timeout. *)
Record sound {A} (w : World) (r : Run A) : Prop := {
  sound_config : same_config (client w) (client (final r));
  sound_fuel : outcome r <> OutOfFuel;
  sound_network : (List.length (network (final r)) <= List.length (network w))%nat;
  sound_abort :
    forall pre e post,
      events r = (pre ++ e :: post)%list -> timed_out e = true ->
      post = [] /\ outcome r = Throw (NeutronTimeoutError (timeout (client w)))
      /\ exists req, e = EvFetch req (timeout (client w)) (Rejected "AbortError")
}.

(* ================================================================== *)
(** * Worlds and runs used as examples *)
(* ================================================================== *)

Module Examples.

Definition no_dates : JsVal -> option Z := fun _ => None.

Definition answer (st : Z) (j : JsVal) : Exchange :=
  {| elapsed := 10;
     settles := Responded {| resp_status := st; resp_statusText := "";
                             resp_json := Some j; resp_has_body := true |} |}.

Definition aborted : Exchange :=
  {| elapsed := 30000; settles := Rejected "AbortError" |}.

Definition config : HttpClient.NeutronConfig :=
  {| HttpClient.cfg_apiKey := "key"; HttpClient.cfg_apiSecret := "secret";
     HttpClient.cfg_baseUrl := Some "https://api.neutron.me/";
     HttpClient.cfg_timeout := None; HttpClient.cfg_maxRetries := None;
     HttpClient.cfg_debug := Some true |}.

(** The client the constructor makes of [config]. *)
Definition fresh : Client :=
  {| apiKey := "key"; apiSecret := "secret";
     baseUrl := "https://api.neutron.me";
     timeout := 30000; maxRetries := 2; debug := true;
     accessToken := JNull; accountId := JNull;
     tokenExpiry := Some 0 |}.

(** The same client holding a token good for a long time. *)
Definition signed_in : Client :=
  {| apiKey := "key"; apiSecret := "secret";
     baseUrl := "https://api.neutron.me";
     timeout := 30000; maxRetries := 2; debug := true;
     accessToken := JStr "tok"; accountId := JStr "acc";
     tokenExpiry := Some 10000000 |}.

(** The same client under another key. *)
Definition other_key : Client :=
  {| apiKey := "key2"; apiSecret := "secret";
     baseUrl := "https://api.neutron.me";
     timeout := 30000; maxRetries := 2; debug := true;
     accessToken := JNull; accountId := JNull;
     tokenExpiry := Some 0 |}.

(** The same client with a NUL byte appended to its secret. *)
Definition padded_secret : Client :=
  {| apiKey := "key"; apiSecret := "secret" ++ String "000"%char EmptyString;
     baseUrl := "https://api.neutron.me";
     timeout := 30000; maxRetries := 2; debug := true;
     accessToken := JNull; accountId := JNull;
     tokenExpiry := Some 0 |}.

Definition world (c : Client) (net : list Exchange) : World :=
  {| client := c; now := 1000; network := net |}.

(** The answer of the token endpoint, in its envelope. *)
Definition session (expiredAt : Z) : JsVal :=
  JObj [ ("data", JObj [ ("accountId", JStr "acc");
                         ("accessToken", JStr "tok");
                         ("expiredAt", JNum expiredAt) ]) ].

Definition txn_in (state : string) : JsVal :=
  JObj [ ("txnId", JStr "abc"); ("txnState", JStr state) ].

Definition with_callback : TransactionsResource.WaitOptions :=
  {| TransactionsResource.intervalMs := None;
     TransactionsResource.timeoutMs := None;
     TransactionsResource.onStateChange := true |}.

Definition uuid : string := "5e25d2f4-9bca-4b7a-a1ad-2cf056100cb6".

(** 500, 500, 200 with a valid token. *)
Definition retry_world : World :=
  world signed_in [answer 500 (JObj []); answer 500 (JObj []); answer 200 (JStr "body")].
Definition retry_run : Run JsVal :=
  HttpClient.request no_dates "GET" "/x" JUndefined retry_world.



(** A 500, then a call that is aborted by its timer. *)
Definition slow_world : World :=
  world signed_in [answer 500 (JObj []); aborted; answer 200 (JStr "late")].
Definition slow_run : Run JsVal :=
  HttpClient.request no_dates "GET" "/x" JUndefined slow_world.

(** Polls of a transaction, with a callback. *)
Definition polls (states : list string) : World :=
  world signed_in (map (fun s => answer 200 (txn_in s)) states).
Definition wait_run (states : list string) : Run JsVal :=
  TransactionsResource.waitForCompletion no_dates "abc" (Some with_callback)
    (polls states).

(** Two calls of [ensureAuth] in a row on a fresh client, the token
    endpoint answering with sessions that expire at the given times. *)
Definition first_ensureAuth (expiry1 expiry2 : Z) : Run unit :=
  HttpClient.ensureAuth no_dates
    (world fresh [answer 200 (session expiry1); answer 200 (session expiry2)]).
Definition second_ensureAuth (expiry1 expiry2 : Z) : Run unit :=
  HttpClient.ensureAuth no_dates (final (first_ensureAuth expiry1 expiry2)).




(** 500, 500, 200 on a fresh client that has to sign in first. *)
Definition fresh_retry_run : Run JsVal :=
  HttpClient.request no_dates "GET" "/x" JUndefined
    (world fresh [answer 200 (session 10000000); answer 500 (JObj []);
                  answer 500 (JObj []); answer 200 (JStr "body")]).

(** A first request on a fresh client with [debug] on. *)
Definition debug_run : Run JsVal :=
  HttpClient.request no_dates "GET" "/x" JUndefined
    (world fresh [answer 200 (session 10000000); answer 200 (JStr "ok")]).

End Examples.


(* ================================================================== *)
(** * Other resources built on the client *)
(* ================================================================== *)

(** [res.data ?? res], the envelope the API may wrap an answer in. *)
Definition unwrap_data (res : JsVal) : M JsVal :=
  data <- prop res "data" ;;
  ret (js_nullish data res).

(** resources/fiat.ts: [institutions] *)
Module FiatResource.

Section Platform.

Variable Date_getTime : JsVal -> option Z.

Definition institutions (countryCode : string) : M JsVal :=
  sanitizePathParam countryCode "countryCode" ;;
  res <- HttpClient.get Date_getTime
           ("/api/v2/reference/fiat-institution/by-country/" ++ countryCode) ;;
  unwrap_data res.

End Platform.

End FiatResource.

(* ================================================================== *)
(** * resources/webhooks.ts: [verifySignature] *)
(* ================================================================== *)

Module WebhooksResource.


Section Platform.

(** [JSON.parse(text)], [None] when it throws. *)
Variable JSON_parse : string -> option JsVal.


End Platform.

End WebhooksResource.

(* ================================================================== *)
(** * [subscribe]: the frame loop over the open stream *)
(* ================================================================== *)

Module EventStream.

Definition newline : ascii := "010"%char.

(** [s.split("\n")]: never empty, the last item is what follows the last
    line feed. *)
Fixpoint split_lines (s : string) : list string :=
  match s with
  | EmptyString => [ "" ]
  | String c rest =>
      if Ascii.eqb c newline then "" :: split_lines rest
      else
        match split_lines rest with
        | seg :: more => String c seg :: more
        | [] => [ String c "" ]
        end
  end.

(** [line.slice(n)] *)
Fixpoint slice (n : nat) (line : string) : string :=
  match n, line with
  | O, _ => line
  | S n', String _ rest => slice n' rest
  | S _, EmptyString => ""
  end.

(** What the consumer of the generator and the console see. *)
Inductive Output : Type :=
| Yielded (event : JsVal)          (* yield JSON.parse(...) *)
| ParseFailure (data : string)     (* console.error("[SSE] Failed to parse event data:", ...) *)
| ReaderCancelled.                 (* reader.cancel() *)

Section Platform.

Variable JSON_parse : string -> option JsVal.

(** The body of [for (const line of lines)]. *)
Definition frame (line : string) : list Output :=
  if String.prefix "data: " line then
    match JSON_parse (slice 6 line) with
    | Some event => [ Yielded event ]
    | None => [ ParseFailure (slice 6 line) ]
    end
  else [].

(** The [while (true)] loop over the chunks the reader delivers (each
    already decoded to text) until it reports [done], for a consumer that
    takes every event. *)
Fixpoint read_loop (chunks : list string) (buffer : string) : list Output :=
  match chunks with
  | [] => []
  | value :: rest =>
      let buffer1 := buffer ++ value in
      let lines := split_lines buffer1 in
      let buffer2 := last lines "" in
      (flat_map frame (removelast lines) ++ read_loop rest buffer2)%list
  end.

(** The loop inside its [try { ... } finally { reader.cancel() }]. *)
Definition read_stream (chunks : list string) : list Output :=
  (read_loop chunks "" ++ [ ReaderCancelled ])%list.

End Platform.

End EventStream.

(* ================================================================== *)
(** * Vocabulary of the further statements *)
(* ================================================================== *)

(** A string whose last character is a slash. *)
Fixpoint ends_with_slash (s : string) : bool :=
  match s with
  | EmptyString => false
  | String c EmptyString => Ascii.eqb c "/"
  | String _ rest => ends_with_slash rest
  end.

(** [n] slashes. *)
Fixpoint slashes (n : nat) : string :=
  match n with
  | O => ""
  | S n' => String "/" (slashes n')
  end.

(** Every character is of the class [sanitizePathParam] keeps. *)
Fixpoint all_allowed (s : string) : bool :=
  match s with
  | EmptyString => true
  | String c rest => allowed_char c && all_allowed rest
  end.

(** What [sanitizePathParam] lets through: a non-empty string of allowed
    characters without two dots in a row. *)
Definition path_safe (value : string) : bool :=
  negb (String.eqb value "") && all_allowed value && negb (includes_dotdot value).

(** The fetch calls of a trace with the timer each ran under. *)
Fixpoint calls (evs : list Event) : list (Request * Z) :=
  match evs with
  | [] => []
  | EvFetch req abortAfter _ :: rest => (req, abortAfter) :: calls rest
  | _ :: rest => calls rest
  end.

(** The request of an attempt that carries the bearer token [token]. *)
Definition bearer_request (c : Client) (method path : string) (reqBody token : JsVal)
  : Request :=
  {| req_method := method;
     req_url := baseUrl c ++ path;
     req_headers :=
       [ ("Authorization", "Bearer " ++ to_string token);
         ("Content-Type", "application/json") ];
     req_body := if truthy reqBody then JsonBody reqBody else NoBody |}.

(** A call a run of [request] may make: the authentication call, or the
    request itself under some token; either under the configured timer. *)
Definition expected_call (c : Client) (method path : string) (reqBody : JsVal)
           (call : Request * Z) : Prop :=
  snd call = timeout c
  /\ (fst call = auth_request c
      \/ exists token, fst call = bearer_request c method path reqBody token).

(** The errors that come from making a call and reading its answer, for
    a client whose timeout is [ms]: the timer firing, the network
    rejecting the call, the token endpoint refusing, a body that cannot
    be read. *)
Definition connection_failure (ms : Z) (t : Thrown) : Prop :=
  match t with
  | NeutronTimeoutError ms' => ms' = ms
  | FetchRejection name => name <> "AbortError"
  | NeutronAuthError _ | JsTypeError | JsSyntaxError => True
  | ApiError _ | NeutronValidationError _ | JsError _ | JsRangeError
  | ThrownUndefined => False
  end.

(** A run that, if it throws, throws something of the kind [P]. *)
Definition throws_only {A} (P : Thrown -> Prop) (r : Run A) : Prop :=
  forall t, outcome r = Throw t -> P t.

(** The answer a [NeutronApiError] was made of is the last thing that
    happened in the trace: a non-2xx answer to a call of the request. *)
Definition made_of_last_answer (ms : Z) (evs : list Event) (e : NeutronApiError)
  : Prop :=
  exists pre req r,
    evs = (pre ++ [EvFetch req ms (Responded r)])%list
    /\ is_api_call req = true /\ ok r = false
    /\ e = new_NeutronApiError (resp_status r) (json_or_empty r).

(** The last event of a trace. *)
Definition last_event (evs : list Event) : option Event :=
  last (map Some evs) None.

(** The text of a stream: its chunks put end to end. *)
Definition stream_text (chunks : list string) : string :=
  fold_right String.append "" chunks.

(** A string without a line feed. *)
Fixpoint one_line (s : string) : bool :=
  match s with
  | EmptyString => true
  | String c rest => negb (Ascii.eqb c EventStream.newline) && one_line rest
  end.

(** Lines, each closed by its line feed, put end to end. *)
Definition closed_lines (lines : list string) : string :=
  stream_text (map (fun l => l ++ String EventStream.newline "") lines).



(* ================================================================== *)
(** * Further worlds and runs used as examples *)
(* ================================================================== *)

Module Scenarios.

(** A parser that knows two texts. *)
Definition parse_known (text : string) : option JsVal :=
  if String.eqb text "{}" then Some (JObj [])
  else if String.eqb text "1" then Some (JNum 1)
  else None.

(** A client that makes no attempt at all. *)
Definition no_attempts : Client :=
  {| apiKey := "key"; apiSecret := "secret";
     baseUrl := "https://api.neutron.me";
     timeout := 30000; maxRetries := -1; debug := false;
     accessToken := JStr "tok"; accountId := JStr "acc";
     tokenExpiry := Some 10000000 |}.

(** The token endpoint refuses the key. *)
Definition refused_world : World :=
  Examples.world Examples.fresh
    [Examples.answer 403 (JObj [("error", JStr "bad key")]);
     Examples.answer 200 (JStr "never asked")].


Definition refused_run : Run JsVal :=
  HttpClient.request Examples.no_dates "GET" "/x" JUndefined refused_world.



Definition no_attempts_world : World :=
  Examples.world no_attempts [Examples.answer 200 (JStr "never asked")].



(** A stream endpoint that answers 200 without a body. *)
Definition bodyless : Exchange :=
  {| elapsed := 10;
     settles := Responded {| resp_status := 200; resp_statusText := "OK";
                             resp_json := None; resp_has_body := false |} |}.

(** The stream endpoint answering with one exchange. *)
Definition stream_world (x : Exchange) : World :=
  Examples.world Examples.signed_in [x].

Definition line_feed : string := String EventStream.newline "".

(** Four lines and the beginning of a fifth, cut in the middle of the
    second line. *)
Definition stream_chunks : list string :=
  [ "data: {}" ++ line_feed ++ "da";
    "ta: 1" ++ line_feed ++ ": ping" ++ line_feed ++ "data: oops" ++ line_feed
    ++ "data: {}" ].

Definition stream_lines : list string :=
  [ "data: {}"; "data: 1"; ": ping"; "data: oops" ].


End Scenarios.


(* ================================================================== *)
(** * Properties *)
(* ================================================================== *)

(* ================================================================== *)
(** * The model against known values *)
(* ================================================================== *)

Example sha256_abc :
  Crypto.hex_of_bytes (Crypto.sha256 (Crypto.bytes_of_string "abc"))
  = "ba7816bf8f01cfea414140de5dae2223b00361a396177a9cb410ff61f20015ad".
Proof. vm_compute. reflexivity. Qed.

Example sha256_two_blocks :
  Crypto.hex_of_bytes (Crypto.sha256 (repeat 97 70%nat))
  = "6bd5e5034855a11241f0dee8fc72850ffd9955b28347a86428b5fa19119f6ad0".
Proof. vm_compute. reflexivity. Qed.

Example hmac_rfc4231_case2 :
  Crypto.digest_hex
    (Crypto.update (Crypto.createHmac_sha256 "Jefe") "what do ya want for nothing?")
  = "5bdcc146bf60754e6a042426089575c75a003f089d2739839dec58b964ec3843".
Proof. vm_compute. reflexivity. Qed.

Example hmac_long_key :
  Crypto.hex_of_bytes
    (Crypto.hmac_sha256 (repeat 107 70%nat) (Crypto.bytes_of_string "hello"))
  = "73473f937d4c181ed6aa87ce97d6db7dc732e19dd43e60c8ab7ee3aed2d9f4b0".
Proof. vm_compute. reflexivity. Qed.

Example signature_of_auth_payload :
  HttpClient.generateSignature Examples.fresh HttpClient.auth_payload
  = "68ae5790015f003165d069827ddec78b6695f02cd87a615450d387a283825b0e".
Proof. vm_compute. reflexivity. Qed.

Example constructor_defaults :
  HttpClient.constructor Examples.config = Return Examples.fresh.
Proof. reflexivity. Qed.

(** The cases of the test suite of [sanitizePathParam]. *)
Example sanitize_allows_uuid :
  outcome (sanitizePathParam Examples.uuid "txnId"
             (Examples.world Examples.fresh []))
  = Return Examples.uuid.
Proof. reflexivity. Qed.

Example sanitize_allows_account_id :
  outcome (sanitizePathParam "ne01-aae1e6622dea478e" "accountId"
             (Examples.world Examples.fresh []))
  = Return "ne01-aae1e6622dea478e".
Proof. reflexivity. Qed.

Example sanitize_rejects_traversal :
  outcome (sanitizePathParam "../../admin" "txnId"
             (Examples.world Examples.fresh []))
  = Throw (NeutronValidationError
             "txnId contains invalid characters. Only alphanumeric, hyphens, underscores, and dots are allowed.").
Proof. reflexivity. Qed.

Example sanitize_rejects_dotdot :
  outcome (sanitizePathParam "a..b" "txnId" (Examples.world Examples.fresh []))
  = Throw (NeutronValidationError "txnId cannot contain path traversal sequences.").
Proof. reflexivity. Qed.

Example sanitize_rejects_empty :
  outcome (sanitizePathParam "" "txnId" (Examples.world Examples.fresh []))
  = Throw (NeutronValidationError "txnId is required and must be a non-empty string.").
Proof. reflexivity. Qed.

Example uuid_pattern :
  TransactionsResource.UUID_RE_test Examples.uuid = true
  /\ TransactionsResource.UUID_RE_test "5E25D2F4-9BCA-4B7A-A1AD-2CF056100CB6" = true
  /\ TransactionsResource.UUID_RE_test "5e25d2f4-9bca-4b7a-a1ad-2cf056100cbg" = false
  /\ TransactionsResource.UUID_RE_test "5e25d2f4-9bca-4b7a-a1ad-2cf056100cb6/.." = false
  /\ TransactionsResource.UUID_RE_test "5e25d2f49bca4b7aa1ad2cf056100cb6" = false
  /\ TransactionsResource.UUID_RE_test "" = false.
Proof. repeat split. Qed.

Example attempt_schedule_of_three :
  attempt_schedule 0 3 = [Dispatch; Backoff 1000; Dispatch; Backoff 2000; Dispatch].
Proof. reflexivity. Qed.

(** With a negative [maxRetries] the loop body never runs and the
    [throw lastError] after it throws [undefined]. *)
Example request_with_no_attempt :
  HttpClient.request_loop Examples.no_dates (Z.to_nat (-1 + 1)) "GET" "/x"
    JUndefined 0 None Examples.retry_world
  = {| outcome := Throw ThrownUndefined; final := Examples.retry_world;
       events := [] |}.
Proof. reflexivity. Qed.

(** A fresh client signs in, then meets 500, 500, 200. *)
Example request_signs_in_then_retries :
  outcome Examples.fresh_retry_run = Return (JStr "body")
  /\ sleeps (events Examples.fresh_retry_run) = [1000; 2000]
  /\ List.length (auth_calls (events Examples.fresh_retry_run)) = 1%nat
  /\ attempt_view (events Examples.fresh_retry_run)
     = [Dispatch; Backoff 1000; Dispatch; Backoff 2000; Dispatch].
Proof. vm_compute. auto. Qed.
(* ================================================================== *)
(** * Runs of the primitives and of the client's operations *)
(* ================================================================== *)

Lemma bind_run {A B} (m : M A) (k : A -> M B) (w : World) :
  bind m k w =
  match outcome (m w) with
  | Return a => after (events (m w)) (k a (final (m w)))
  | Throw t => {| outcome := Throw t; final := final (m w); events := events (m w) |}
  | OutOfFuel => {| outcome := OutOfFuel; final := final (m w); events := events (m w) |}
  end.
Proof. unfold bind, after. destruct (outcome (m w)); reflexivity. Qed.

Lemma after_nil {A} (r : Run A) : after [] r = r.
Proof. destruct r; reflexivity. Qed.

Lemma after_after {A} (e1 e2 : list Event) (r : Run A) :
  after e1 (after e2 r) = after (e1 ++ e2)%list r.
Proof. unfold after; simpl. rewrite app_assoc. reflexivity. Qed.

Lemma same_config_refl c : same_config c c.
Proof. repeat split. Qed.

Lemma same_config_trans c1 c2 c3 :
  same_config c1 c2 -> same_config c2 c3 -> same_config c1 c3.
Proof.
  unfold same_config. intros (a1 & a2 & a3 & a4 & a5 & a6) (b1 & b2 & b3 & b4 & b5 & b6).
  repeat split; congruence.
Qed.

Lemma rawFetch_run req w :
  HttpClient.rawFetch req w =
  match network w with
  | [] => {| outcome := Throw (FetchRejection "TypeError"); final := w;
             events := [EvFetch req (timeout (client w)) (Rejected "TypeError")] |}
  | x :: rest =>
      {| outcome := match settles x with
                    | Responded r => Return r
                    | Rejected name =>
                        if String.eqb name "AbortError"
                        then Throw (NeutronTimeoutError (timeout (client w)))
                        else Throw (FetchRejection name)
                    end;
         final := {| client := client w; now := now w + elapsed x; network := rest |};
         events := [EvFetch req (timeout (client w)) (settles x)] |}
  end.
Proof.
  unfold HttpClient.rawFetch, bind, try_catch, get_client, fetch, throw. simpl.
  destruct (network w) as [|x rest]; simpl; [reflexivity|].
  destruct (settles x) as [r|name]; simpl; [reflexivity|].
  destruct (String.eqb name "AbortError"); reflexivity.
Qed.


Lemma sound_quiet {A} (w : World) (o : Completion A) :
  o <> OutOfFuel -> sound w {| outcome := o; final := w; events := [] |}.
Proof.
  intros H. split; simpl; auto using same_config_refl.
  intros pre e post E. destruct pre; discriminate.
Qed.

Lemma sound_one_event {A} (w w' : World) (o : Completion A) (e : Event) :
  o <> OutOfFuel -> same_config (client w) (client w') ->
  (List.length (network w') <= List.length (network w))%nat ->
  timed_out e = false ->
  sound w {| outcome := o; final := w'; events := [e] |}.
Proof.
  intros H1 H2 H3 H4. split; simpl; auto.
  intros pre e' post E T.
  destruct pre as [|x pre]; simpl in E.
  - injection E as -> <-. congruence.
  - destruct pre; discriminate.
Qed.

Lemma sound_bind {A B} (m : M A) (k : A -> M B) (w : World) :
  sound w (m w) ->
  (forall a, outcome (m w) = Return a -> sound (final (m w)) (k a (final (m w)))) ->
  sound w (bind m k w).
Proof.
  intros Hm Hk. rewrite bind_run.
  destruct (outcome (m w)) as [a| t |] eqn:Eo.
  - specialize (Hk a eq_refl). destruct Hm as [c1 f1 n1 a1], Hk as [c2 f2 n2 a2].
    assert (Et : timeout (client (final (m w))) = timeout (client w)) by apply c1.
    split; simpl.
    + eapply same_config_trans; eauto.
    + exact f2.
    + lia.
    + intros pre e post E T. rewrite <- Et.
      apply app_eq_app in E. destruct E as [l [[E1 E2] | [E1 E2]]].
      * destruct l as [|x l]; simpl in E2.
        -- apply (a2 [] e post); auto.
        -- injection E2 as <- E2.
           destruct (a1 pre e l E1 T) as (_ & Ho & _). congruence.
      * apply (a2 l e post); auto.
  - destruct Hm as [c1 f1 n1 a1]. split; simpl; auto; try congruence.
    intros pre e post E T. destruct (a1 pre e post E T) as (H1 & H2 & H3).
    repeat split; auto; congruence.
  - destruct Hm. congruence.
Qed.


Lemma sound_ret {A} (a : A) w : sound w (ret a w).
Proof. apply sound_quiet. discriminate. Qed.

Lemma sound_throw {A} t w : sound w (@throw A t w).
Proof. apply sound_quiet. discriminate. Qed.

Lemma sound_get_client w : sound w (get_client w).
Proof. apply sound_quiet. discriminate. Qed.

Lemma sound_Date_now w : sound w (Date_now w).
Proof. apply sound_quiet. discriminate. Qed.

Lemma sound_get_isTokenValid w : sound w (HttpClient.get_isTokenValid w).
Proof. apply sound_quiet. discriminate. Qed.

Lemma sound_sleep ms w : sound w (sleep ms w).
Proof.
  apply sound_one_event; simpl; auto using same_config_refl; discriminate.
Qed.

Lemma sound_set_client c w :
  same_config (client w) c -> sound w (set_client c w).
Proof.
  intros H. split; simpl; auto; try discriminate.
  intros pre e post E. destruct pre; discriminate.
Qed.

Lemma sound_json r w : sound w (json r w).
Proof. unfold json. destruct (resp_json r); [apply sound_ret | apply sound_throw]. Qed.

Lemma sound_prop v k w : sound w (prop v k w).
Proof. unfold prop. destruct v; try apply sound_ret; apply sound_throw. Qed.

Lemma sound_throw_lastError {A} le w : sound w (@HttpClient.throw_lastError A le w).
Proof. destruct le; apply sound_throw. Qed.

Lemma sound_log text data w : sound w (HttpClient.log text data w).
Proof.
  unfold HttpClient.log. apply sound_bind; [apply sound_get_client|].
  intros c _. destruct (negb (debug c)); [apply sound_ret|].
  apply sound_bind; [apply sound_Date_now|]. intros ts _.
  apply sound_one_event; simpl; auto using same_config_refl; discriminate.
Qed.

Lemma sound_rawFetch req w : sound w (HttpClient.rawFetch req w).
Proof.
  rewrite rawFetch_run. destruct (network w) as [|x rest] eqn:En.
  - apply sound_one_event; simpl; auto using same_config_refl; discriminate.
  - split; simpl.
    + apply same_config_refl.
    + destruct (settles x) as [r|name]; [discriminate|].
      destruct (String.eqb name "AbortError"); discriminate.
    + rewrite En. simpl. lia.
    + intros pre e post E T.
      destruct pre as [|y pre]; simpl in E; [|destruct pre; discriminate].
      injection E as <- <-. simpl in T.
      destruct (settles x) as [r|name]; [discriminate|].
      rewrite T. apply String.eqb_eq in T. subst name. eauto.
Qed.

Create HintDb sound.

#[local] Hint Resolve sound_ret sound_throw sound_get_client sound_Date_now
  sound_get_isTokenValid sound_sleep sound_json sound_prop sound_log
  sound_rawFetch sound_throw_lastError same_config_refl : sound.

Ltac sound_seq :=
  repeat first
    [ solve [auto with sound]
    | apply sound_bind; [solve [auto with sound] | intros ? ?] ].

Section Soundness.

Variable D : JsVal -> option Z.

Lemma sound_authenticate w : sound w (HttpClient.authenticate D w).
Proof.
  unfold HttpClient.authenticate. sound_seq.
  destruct (negb (ok _)); sound_seq.
  apply sound_bind; [|intros; sound_seq].
  apply sound_set_client.
  match goal with H : outcome (get_client _) = Return ?c |- _ =>
    simpl in H; injection H as <- end.
  repeat split.
Qed.

#[local] Hint Resolve sound_authenticate : sound.

Lemma sound_ensureAuth w : sound w (HttpClient.ensureAuth D w).
Proof.
  unfold HttpClient.ensureAuth. sound_seq.
  destruct (negb _); sound_seq.
Qed.

Lemma sound_backoff a w : sound w (backoff D a w).
Proof.
  unfold backoff. destruct (0 <? a); sound_seq.
  destruct (negb _); sound_seq.
Qed.

#[local] Hint Resolve sound_ensureAuth sound_backoff : sound.

Lemma sound_dispatch m p b a w : sound w (dispatch D m p b a w).
Proof. unfold dispatch. sound_seq. Qed.

End Soundness.

Lemma bind_assoc {A B C} (m : M A) (f : A -> M B) (g : B -> M C) w :
  bind (bind m f) g w = bind m (fun a => bind (f a) g) w.
Proof.
  unfold bind. destruct (m w) as [o w1 e1]; simpl.
  destruct o as [a| |]; simpl; try reflexivity.
  destruct (f a w1) as [o2 w2 e2]; simpl.
  destruct o2 as [b| |]; simpl; try reflexivity.
  rewrite app_assoc. reflexivity.
Qed.

Lemma bind_ext {A B} (m : M A) (f g : A -> M B) w :
  (forall a, outcome (m w) = Return a -> f a (final (m w)) = g a (final (m w))) ->
  bind m f w = bind m g w.
Proof.
  intros H. unfold bind. destruct (outcome (m w)) as [a| |]; try reflexivity.
  rewrite (H a eq_refl). reflexivity.
Qed.

Lemma log_run text data w :
  HttpClient.log text data w =
  {| outcome := Return tt; final := w;
     events := if debug (client w)
               then [EvLog (now w) text (if truthy data then Some data else None)]
               else [] |}.
Proof.
  unfold HttpClient.log, bind, get_client, Date_now, emit, ret. simpl.
  destruct (debug (client w)); reflexivity.
Qed.

Section Loop.

Variable D : JsVal -> option Z.

Lemma request_loop_step k m p b a le w :
  HttpClient.request_loop D (S k) m p b a le w
  = bind (dispatch D m p b a) (settle D k m p b a) w.
Proof.
  unfold dispatch. rewrite bind_assoc.
  cbn [HttpClient.request_loop]. fold (backoff D a).
  apply bind_ext. intros _ _.
  rewrite bind_assoc. apply bind_ext. intros c Hc. simpl in Hc. injection Hc as <-.
  rewrite bind_assoc. apply bind_ext. intros _ _.
  fold (api_request (client (final (backoff D a w))) m p b).
  rewrite log_run. simpl. set (w1 := final (backoff D a w)).
  rewrite !bind_run, rawFetch_run.
  destruct (network w1) as [|x rest]; simpl; [reflexivity|].
  destruct (settles x) as [r|name]; simpl.
  - unfold settle. simpl. f_equal.
    destruct (ok r); [reflexivity|].
    destruct ((resp_status r =? 401) && (a <? maxRetries (client w1))).
    + rewrite bind_run. simpl. rewrite after_nil. reflexivity.
    + destruct (isRetryable _ && _); reflexivity.
  - destruct (String.eqb name "AbortError"); reflexivity.
Qed.

End Loop.

Section LoopSound.

Variable D : JsVal -> option Z.

#[local] Hint Resolve sound_authenticate sound_ensureAuth sound_backoff
  sound_dispatch : sound.

Lemma sound_with_token_cleared {A} w (r : Run A) :
  sound (with_token_cleared w) r -> sound w r.
Proof.
  intros [c f n a]. split; auto.
Qed.

Lemma sound_request_loop k :
  forall m p b a le w, sound w (HttpClient.request_loop D k m p b a le w).
Proof.
  induction k as [|k IH]; intros m p b a le w.
  - simpl. auto with sound.
  - rewrite request_loop_step. apply sound_bind; [auto with sound|].
    intros r _. unfold settle.
    destruct (ok r); [auto with sound|].
    destruct (_ && _); [apply sound_with_token_cleared, IH|].
    destruct (_ && _); [apply IH | auto with sound].
Qed.

#[local] Hint Resolve sound_request_loop : sound.

Lemma sound_request m p b w : sound w (HttpClient.request D m p b w).
Proof. unfold HttpClient.request. sound_seq. Qed.

End LoopSound.


Lemma request_loop_settles D k m p b a le w response w1 evs :
  dispatch D m p b a w = {| outcome := Return response; final := w1; events := evs |} ->
  HttpClient.request_loop D (S k) m p b a le w
  = after evs (settle D k m p b a response w1).
Proof.
  intros E. rewrite request_loop_step, bind_run, E. reflexivity.
Qed.

Lemma dispatch_first_attempt D m p b w :
  dispatch D m p b 0 w
  = after (if debug (client w)
           then [EvLog (now w) (m ++ " " ++ p) None] else [])
      (HttpClient.rawFetch (api_request (client w) m p b) w).
Proof.
  unfold dispatch, backoff. simpl (0 <? 0).
  rewrite bind_run. simpl. rewrite after_nil.
  rewrite bind_run. simpl. rewrite after_nil.
  rewrite bind_run, log_run. simpl. reflexivity.
Qed.

Lemma ensureAuth_valid D w :
  HttpClient.isTokenValid w = true ->
  HttpClient.ensureAuth D w = {| outcome := Return tt; final := w; events := [] |}.
Proof.
  intros H. unfold HttpClient.ensureAuth, bind, HttpClient.get_isTokenValid, ret.
  simpl. rewrite H. reflexivity.
Qed.

Lemma request_valid_token D m p b w :
  HttpClient.isTokenValid w = true ->
  HttpClient.request D m p b w
  = HttpClient.request_loop D (Z.to_nat (maxRetries (client w) + 1)) m p b 0 None w.
Proof.
  intros H. unfold HttpClient.request.
  rewrite bind_run, (ensureAuth_valid D w H). simpl. rewrite after_nil.
  rewrite bind_run. simpl. rewrite after_nil. reflexivity.
Qed.




(** C4.  In the retry loop of [request] (and in [request] as a whole), a
    call aborted by its timer is the last event of the run: the run ends
    there by throwing a [NeutronTimeoutError] that carries the configured
    timeout, whatever the number of attempts left; no sleep and no further
    call follows.  [rawFetch] is where the abort becomes that error. *)
Theorem timeout_is_not_retried :
  forall (D : JsVal -> option Z) (method path : string) (reqBody : JsVal)
         (w : World),
    (forall remaining attempt lastError pre e post,
        let run := HttpClient.request_loop D remaining method path reqBody
                     attempt lastError w in
        events run = (pre ++ e :: post)%list ->
        timed_out e = true ->
        post = []
        /\ outcome run = Throw (NeutronTimeoutError (timeout (client w)))
        /\ exists req, e = EvFetch req (timeout (client w)) (Rejected "AbortError"))
    /\ (forall pre e post,
          let run := HttpClient.request D method path reqBody w in
          events run = (pre ++ e :: post)%list ->
          timed_out e = true ->
          post = []
          /\ outcome run = Throw (NeutronTimeoutError (timeout (client w)))
          /\ exists req, e = EvFetch req (timeout (client w)) (Rejected "AbortError"))
    /\ (forall req x rest,
          network w = (x :: rest)%list ->
          settles x = Rejected "AbortError" ->
          HttpClient.rawFetch req w
          = {| outcome := Throw (NeutronTimeoutError (timeout (client w)));
               final := {| client := client w; now := now w + elapsed x;
                           network := rest |};
               events := [EvFetch req (timeout (client w)) (Rejected "AbortError")] |}).
Proof.
  intros D method path reqBody w. repeat split.
  - eapply (sound_abort _ _ (sound_request_loop D remaining method path reqBody
                               attempt lastError w)); eassumption.
  - eapply (sound_abort _ _ (sound_request_loop D remaining method path reqBody
                               attempt lastError w)); eassumption.
  - eapply (sound_abort _ _ (sound_request_loop D remaining method path reqBody
                               attempt lastError w)); eassumption.
  - eapply (sound_abort _ _ (sound_request D method path reqBody w)); eassumption.
  - eapply (sound_abort _ _ (sound_request D method path reqBody w)); eassumption.
  - eapply (sound_abort _ _ (sound_request D method path reqBody w)); eassumption.
  - intros req x rest En Es. rewrite rawFetch_run, En, Es. reflexivity.
Qed.


(* ================================================================== *)
(** * Events of authentication and of one attempt *)
(* ================================================================== *)


Lemma auth_only_views evs :
  auth_only evs ->
  attempt_view evs = [] /\ returned_bodies evs = [] /\ callbacks evs = []
  /\ sleeps evs = [] /\ log_lines evs = [].
Proof.
  intros [-> | (c & t & res & ->)]; simpl; [auto 6|].
  destruct res; auto 6.
Qed.

Lemma attempt_view_app l1 l2 :
  attempt_view (l1 ++ l2) = (attempt_view l1 ++ attempt_view l2)%list.
Proof.
  induction l1 as [|e l1 IH]; simpl; [reflexivity|].
  destruct e; simpl; rewrite ?IH; try reflexivity.
  destruct (is_api_call req); simpl; rewrite ?IH; reflexivity.
Qed.

Lemma sleeps_app l1 l2 : sleeps (l1 ++ l2) = (sleeps l1 ++ sleeps l2)%list.
Proof.
  induction l1 as [|e l1 IH]; simpl; [reflexivity|].
  destruct e; simpl; rewrite ?IH; reflexivity.
Qed.

Lemma callbacks_app l1 l2 :
  callbacks (l1 ++ l2) = (callbacks l1 ++ callbacks l2)%list.
Proof.
  induction l1 as [|e l1 IH]; simpl; [reflexivity|].
  destruct e; simpl; rewrite ?IH; reflexivity.
Qed.

Lemma returned_bodies_app l1 l2 :
  returned_bodies (l1 ++ l2) = (returned_bodies l1 ++ returned_bodies l2)%list.
Proof.
  induction l1 as [|e l1 IH]; simpl; [reflexivity|].
  destruct e as [ms|req t res| |]; simpl; try assumption.
  destruct res as [r|name]; [|assumption].
  destruct (is_api_call req && ok r); [|assumption].
  destruct (resp_json r); simpl; rewrite ?IH; reflexivity.
Qed.

Section Attempts.

Variable D : JsVal -> option Z.

Lemma authenticate_events w :
  exists res, events (HttpClient.authenticate D w)
              = [EvFetch (auth_request (client w)) (timeout (client w)) res].
Proof.
  unfold HttpClient.authenticate.
  unfold bind at 1. simpl.
  unfold bind at 1. rewrite rawFetch_run.
  fold (auth_request (client w)).
  destruct (network w) as [|x rest]; simpl.
  - eexists; reflexivity.
  - destruct (settles x) as [r|name]; simpl.
    + exists (Responded r).
      destruct (ok r); simpl.
      * unfold bind, json. destruct (resp_json r) as [v|]; simpl; [|reflexivity].
        unfold prop. destruct v; simpl; reflexivity.
      * unfold bind, prop. destruct (json_or_empty r); simpl; reflexivity.
    + exists (Rejected name). destruct (String.eqb name "AbortError"); reflexivity.
Qed.

Lemma ensureAuth_run w :
  HttpClient.ensureAuth D w
  = if HttpClient.isTokenValid w
    then {| outcome := Return tt; final := w; events := [] |}
    else bind (HttpClient.authenticate D) (fun _ => ret tt) w.
Proof.
  unfold HttpClient.ensureAuth. rewrite bind_run. simpl. rewrite after_nil.
  destruct (HttpClient.isTokenValid w); reflexivity.
Qed.

Lemma ensureAuth_events w : auth_only (events (HttpClient.ensureAuth D w)).
Proof.
  rewrite ensureAuth_run. destruct (HttpClient.isTokenValid w); [left; reflexivity|].
  right. destruct (authenticate_events w) as [res E].
  exists (client w), (timeout (client w)), res.
  rewrite bind_run. remember (HttpClient.authenticate D w) as ra eqn:Era.
  destruct (outcome ra); simpl; rewrite E; reflexivity.
Qed.


Lemma backoff_run a w :
  backoff D a w
  = if 0 <? a
    then after [EvSleep (2 ^ (a - 1) * 1000)]
           (HttpClient.ensureAuth D (slept (2 ^ (a - 1) * 1000) w))
    else {| outcome := Return tt; final := w; events := [] |}.
Proof.
  unfold backoff. destruct (0 <? a); [|reflexivity].
  rewrite bind_run. reflexivity.
Qed.

Lemma backoff_events a w :
  exists evs, auth_only evs
    /\ events (backoff D a w)
       = ((if 0 <? a then [EvSleep (2 ^ (a - 1) * 1000)] else []) ++ evs)%list.
Proof.
  rewrite backoff_run. destruct (0 <? a).
  - eexists. split; [apply ensureAuth_events | reflexivity].
  - exists []. split; [left|]; reflexivity.
Qed.

(** One attempt: the backoff, then, if it went through, the diagnostic
    line and the call. *)
Lemma dispatch_run m p b a w :
  dispatch D m p b a w =
  let rb := backoff D a w in
  match outcome rb with
  | Return _ =>
      after (events rb
             ++ (if debug (client (final rb))
                 then [EvLog (now (final rb)) (m ++ " " ++ p) None] else []))%list
        (HttpClient.rawFetch (api_request (client (final rb)) m p b) (final rb))
  | Throw t => {| outcome := Throw t; final := final rb; events := events rb |}
  | OutOfFuel => {| outcome := OutOfFuel; final := final rb; events := events rb |}
  end.
Proof.
  unfold dispatch. rewrite bind_run. cbv zeta.
  destruct (outcome (backoff D a w)); try reflexivity.
  rewrite bind_run. simpl. rewrite after_nil.
  rewrite bind_run, log_run. simpl. rewrite after_after. reflexivity.
Qed.

Lemma rawFetch_events req w :
  exists res, events (HttpClient.rawFetch req w) = [EvFetch req (timeout (client w)) res]
    /\ (forall r, outcome (HttpClient.rawFetch req w) = Return r -> res = Responded r).
Proof.
  rewrite rawFetch_run. destruct (network w) as [|x rest]; simpl.
  - eexists. split; [reflexivity | discriminate].
  - eexists. split; [reflexivity|]. intros r.
    destruct (settles x) as [r'|name]; [congruence|].
    destruct (String.eqb name "AbortError"); discriminate.
Qed.

Lemma is_api_call_api_request c m p b : is_api_call (api_request c m p b) = true.
Proof. reflexivity. Qed.

Lemma dispatch_view m p b a w :
  let r := dispatch D m p b a w in
  let head := if 0 <? a then [Backoff (2 ^ (a - 1) * 1000)] else [] in
  match outcome r with
  | Return _ => attempt_view (events r) = (head ++ [Dispatch])%list
  | _ => attempt_view (events r) = head
         \/ attempt_view (events r) = (head ++ [Dispatch])%list
  end.
Proof.
  cbv zeta. rewrite dispatch_run. cbv zeta.
  destruct (backoff_events a w) as (evs & Ha & Eb).
  destruct (auth_only_views evs Ha) as (V & _).
  assert (Vb : attempt_view (events (backoff D a w))
               = if 0 <? a then [Backoff (2 ^ (a - 1) * 1000)] else []).
  { rewrite Eb, attempt_view_app, V, app_nil_r. destruct (0 <? a); reflexivity. }
  destruct (outcome (backoff D a w)) eqn:Eo; cbn [outcome events]; auto.
  set (wb := final (backoff D a w)).
  destruct (rawFetch_events (api_request (client wb) m p b) wb) as (res & Er & _).
  remember (HttpClient.rawFetch (api_request (client wb) m p b) wb) as rf eqn:Erf.
  assert (Vd : attempt_view
                 ((events (backoff D a w)
                   ++ (if debug (client wb) then [EvLog (now wb) (m ++ " " ++ p) None] else []))
                  ++ events rf)
               = ((if 0 <? a then [Backoff (2 ^ (a - 1) * 1000)] else []) ++ [Dispatch])%list).
  { rewrite !attempt_view_app, Vb, Er. simpl.
    destruct (debug (client wb)); simpl; rewrite ?app_nil_r; reflexivity. }
  unfold after. cbn [outcome events].
  destruct (outcome rf); auto.
Qed.


Lemma request_loop_view k :
  forall m p b a le w,
    starts (attempt_view (events (HttpClient.request_loop D k m p b a le w)))
           (attempt_schedule a k).
Proof.
  induction k as [|k IH]; intros m p b a le w.
  - exists []. destruct le; reflexivity.
  - rewrite request_loop_step, bind_run.
    pose proof (dispatch_view m p b a w) as V. cbv zeta in V.
    cbn [attempt_schedule].
    set (head := if 0 <? a then [Backoff (2 ^ (a - 1) * 1000)] else []) in *.
    destruct (outcome (dispatch D m p b a w)) as [r| t |].
    + unfold after; simpl. rewrite attempt_view_app, V.
      assert (S : starts (attempt_view (events (settle D k m p b a r
                                                  (final (dispatch D m p b a w)))))
                         (attempt_schedule (a + 1) k)).
      { unfold settle. destruct (ok r).
        - unfold json. destruct (resp_json r); exists (attempt_schedule (a + 1) k); reflexivity.
        - destruct (_ && _); [apply IH|].
          destruct (_ && _); [apply IH|].
          exists (attempt_schedule (a + 1) k); reflexivity. }
      destruct S as [rest ->]. exists rest.
      rewrite <- !app_assoc. reflexivity.
    + simpl. destruct V as [-> | ->].
      * eexists; reflexivity.
      * exists (attempt_schedule (a + 1) k). rewrite <- app_assoc. reflexivity.
    + simpl. destruct V as [-> | ->].
      * eexists; reflexivity.
      * exists (attempt_schedule (a + 1) k). rewrite <- app_assoc. reflexivity.
Qed.

Lemma request_view m p b w :
  starts (attempt_view (events (HttpClient.request D m p b w)))
         (attempt_schedule 0 (Z.to_nat (maxRetries (client w) + 1))).
Proof.
  unfold HttpClient.request. rewrite bind_run.
  destruct (auth_only_views _ (ensureAuth_events w)) as (V & _).
  assert (C : maxRetries (client (final (HttpClient.ensureAuth D w)))
              = maxRetries (client w)).
  { apply (sound_config _ _ (sound_ensureAuth D w)). }
  remember (HttpClient.ensureAuth D w) as ra eqn:Era.
  destruct (outcome ra); unfold after; cbn [events outcome final].
  - rewrite attempt_view_app, V. cbn [app].
    rewrite bind_run. cbn [get_client outcome final events].
    rewrite after_nil, C. apply request_loop_view.
  - rewrite V. eexists; reflexivity.
  - rewrite V. eexists; reflexivity.
Qed.

End Attempts.


Lemma dispatch_retry_valid D m p b a w :
  0 < a ->
  valid_at (client w) (now w + Z.max 0 (2 ^ (a - 1) * 1000)) = true ->
  dispatch D m p b a w
  = after (EvSleep (2 ^ (a - 1) * 1000)
           :: (if debug (client w)
               then [EvLog (now w + Z.max 0 (2 ^ (a - 1) * 1000)) (m ++ " " ++ p) None]
               else []))%list
      (HttpClient.rawFetch (api_request (client w) m p b)
         (slept (2 ^ (a - 1) * 1000) w)).
Proof.
  intros Ha Hv. rewrite dispatch_run, backoff_run.
  replace (0 <? a) with true by (symmetry; apply Z.ltb_lt; assumption).
  rewrite ensureAuth_valid by exact Hv. reflexivity.
Qed.


Lemma dispatch_first_answered D m p b w x rest r :
  network w = (x :: rest)%list -> settles x = Responded r ->
  dispatch D m p b 0 w
  = {| outcome := Return r;
       final := {| client := client w; now := now w + elapsed x; network := rest |};
       events := (attempt_line (client w) (now w) m p
                  ++ [EvFetch (api_request (client w) m p b) (timeout (client w))
                        (Responded r)])%list |}.
Proof.
  intros En Es. rewrite dispatch_first_attempt, rawFetch_run, En, Es. reflexivity.
Qed.

Lemma dispatch_retry_answered D m p b a w x rest r :
  0 < a ->
  valid_at (client w) (now w + Z.max 0 (2 ^ (a - 1) * 1000)) = true ->
  network w = (x :: rest)%list -> settles x = Responded r ->
  dispatch D m p b a w
  = {| outcome := Return r;
       final := {| client := client w;
                   now := now w + Z.max 0 (2 ^ (a - 1) * 1000) + elapsed x;
                   network := rest |};
       events := (EvSleep (2 ^ (a - 1) * 1000)
                  :: attempt_line (client w) (now w + Z.max 0 (2 ^ (a - 1) * 1000)) m p
                  ++ [EvFetch (api_request (client w) m p b) (timeout (client w))
                        (Responded r)])%list |}.
Proof.
  intros Ha Hv En Es. rewrite dispatch_retry_valid by assumption.
  rewrite rawFetch_run. cbn [slept network]. rewrite En, Es. reflexivity.
Qed.

Lemma request_loop_retry D k m p b a le w r w1 evs :
  dispatch D m p b a w = {| outcome := Return r; final := w1; events := evs |} ->
  client w1 = client w ->
  resp_status r = 429 \/ 500 <= resp_status r ->
  a < maxRetries (client w) ->
  HttpClient.request_loop D (S k) m p b a le w
  = after evs (HttpClient.request_loop D k m p b (a + 1)
                 (Some (new_NeutronApiError (resp_status r) (json_or_empty r))) w1).
Proof.
  intros E Ec Hs Ha. rewrite (request_loop_settles D k m p b a le w r w1 evs E).
  unfold settle. rewrite Ec.
  replace (ok r) with false by (unfold ok; symmetry; apply andb_false_iff; right; apply Z.leb_gt; lia).
  replace (resp_status r =? 401) with false by (symmetry; apply Z.eqb_neq; lia).
  replace (a <? maxRetries (client w)) with true by (symmetry; apply Z.ltb_lt; assumption).
  replace (isRetryable _) with true; [reflexivity|].
  symmetry. unfold isRetryable. simpl. apply orb_true_iff.
  destruct Hs as [-> | Hs]; [left; reflexivity | right; apply Z.geb_le; lia].
Qed.

Lemma request_loop_answered D k m p b a le w r w1 evs v :
  dispatch D m p b a w = {| outcome := Return r; final := w1; events := evs |} ->
  ok r = true -> resp_json r = Some v ->
  HttpClient.request_loop D (S k) m p b a le w
  = {| outcome := Return v; final := w1; events := evs |}.
Proof.
  intros E Hok J. rewrite (request_loop_settles D k m p b a le w r w1 evs E).
  unfold settle, json. rewrite Hok, J. unfold after, ret. simpl.
  rewrite app_nil_r. reflexivity.
Qed.

Section Schedule.

Variable D : JsVal -> option Z.

Lemma request_500_500_200 m p b w x1 x2 x3 r1 r2 r3 v :
  maxRetries (client w) = 2 ->
  network w = [x1; x2; x3] ->
  settles x1 = Responded r1 -> settles x2 = Responded r2 ->
  settles x3 = Responded r3 ->
  resp_status r1 = 500 -> resp_status r2 = 500 -> resp_status r3 = 200 ->
  resp_json r3 = Some v ->
  valid_at (client w) (now w) = true ->
  valid_at (client w) (now w + elapsed x1 + 1000) = true ->
  valid_at (client w) (now w + elapsed x1 + 1000 + elapsed x2 + 2000) = true ->
  let run := HttpClient.request D m p b w in
  outcome run = Return v
  /\ sleeps (events run) = [1000; 2000]
  /\ attempt_view (events run)
     = [Dispatch; Backoff 1000; Dispatch; Backoff 2000; Dispatch]
  /\ network (final run) = [].
Proof.
  intros Hmax En E1 E2 E3 S1 S2 S3 J3 V0 V1 V2 run.
  assert (ok3 : ok r3 = true) by (unfold ok; rewrite S3; reflexivity).
  unfold run. rewrite request_valid_token by exact V0. rewrite Hmax.
  change (Z.to_nat (2 + 1)) with 3%nat.
  rewrite (request_loop_retry D 2 m p b 0 None w r1 _ _
             (dispatch_first_answered D m p b w x1 _ r1 En E1) eq_refl)
    by (rewrite ?S1, ?Hmax; lia).
  set (w1 := {| client := client w; now := now w + elapsed x1; network := [x2; x3] |}).
  rewrite (request_loop_retry D 1 m p b (0 + 1) _ w1 r2 _ _
             (dispatch_retry_answered D m p b (0 + 1) w1 x2 _ r2 ltac:(lia) V1 eq_refl E2)
             eq_refl)
    by (rewrite ?S2; cbn [w1 client]; rewrite ?Hmax; lia).
  set (w2 := {| client := client w1; now := now w1 + Z.max 0 (2 ^ (0 + 1 - 1) * 1000) + elapsed x2;
                network := [x3] |}).
  rewrite (request_loop_answered D 0 m p b (0 + 1 + 1) _ w2 r3 _ _ v
             (dispatch_retry_answered D m p b (0 + 1 + 1) w2 x3 _ r3 ltac:(lia) V2 eq_refl E3)
             ok3 J3).
  cbn [after outcome final events network].
  unfold attempt_line. cbn [w2 w1 client].
  repeat split; destruct (debug (client w)); reflexivity.
Qed.

End Schedule.

(* ================================================================== *)
(** * What a poll hands back *)
(* ================================================================== *)


Lemma rawFetch_result req w :
  exists res,
    events (HttpClient.rawFetch req w) = [EvFetch req (timeout (client w)) res]
    /\ match outcome (HttpClient.rawFetch req w) with
       | Return r =>
           res = Responded r
           /\ S (List.length (network (final (HttpClient.rawFetch req w))))
              = List.length (network w)
       | _ => exists name, res = Rejected name
       end.
Proof.
  rewrite rawFetch_run. destruct (network w) as [|x rest]; simpl.
  - eexists. split; [reflexivity | eauto].
  - eexists. split; [reflexivity|].
    destruct (settles x) as [r'|name]; [auto|].
    destruct (String.eqb name "AbortError"); eauto.
Qed.

Section Polls.

Variable D : JsVal -> option Z.

(** A dispatched attempt that came back with a response consumed an
    answer of the network; its events show the JSON of a 2xx answer and
    nothing else that a caller could be handed. *)
Lemma dispatch_result m p b a w :
  let r := dispatch D m p b a w in
  callbacks (events r) = []
  /\ match outcome r with
     | Return resp =>
         returned_bodies (events r)
         = (if ok resp then match resp_json resp with Some v => [v] | None => [] end
            else [])
         /\ (List.length (network (final r)) < List.length (network w))%nat
     | _ => returned_bodies (events r) = []
     end.
Proof.
  cbv zeta. rewrite dispatch_run. cbv zeta.
  destruct (backoff_events D a w) as (evs & Ha & Eb).
  destruct (auth_only_views evs Ha) as (_ & B & C & _).
  assert (Bb : returned_bodies (events (backoff D a w)) = []).
  { rewrite Eb, returned_bodies_app, B. destruct (0 <? a); reflexivity. }
  assert (Cb : callbacks (events (backoff D a w)) = []).
  { rewrite Eb, callbacks_app, C. destruct (0 <? a); reflexivity. }
  pose proof (sound_network _ _ (sound_backoff D a w)) as Nb.
  destruct (outcome (backoff D a w)) eqn:Eo; cbn [outcome events]; auto.
  set (wb := final (backoff D a w)) in *.
  destruct (rawFetch_result (api_request (client wb) m p b) wb) as (res & Er & Ho).
  remember (HttpClient.rawFetch (api_request (client wb) m p b) wb) as rf eqn:Erf.
  unfold after. cbn [outcome events final].
  rewrite !callbacks_app, !returned_bodies_app, Bb, Cb, Er.
  assert (L : forall c t x y, callbacks (if debug c then [EvLog t x y] else []) = []
                              /\ returned_bodies (if debug c then [EvLog t x y] else []) = []).
  { intros c t x y. destruct (debug c); auto. }
  destruct (L (client wb) (now wb) (m ++ " " ++ p) None) as [-> ->].
  split; [destruct res; reflexivity|].
  destruct (outcome rf) as [resp| t |].
  - destruct Ho as [-> Hn]. split; [|lia].
    simpl. destruct (ok resp); [|reflexivity].
    destruct (resp_json resp); reflexivity.
  - destruct Ho as [name ->]. reflexivity.
  - destruct Ho as [name ->]. reflexivity.
Qed.

Lemma request_loop_result k :
  forall m p b a le w,
    let r := HttpClient.request_loop D k m p b a le w in
    callbacks (events r) = []
    /\ returned_bodies (events r) = returned (outcome r)
    /\ (forall v, outcome r = Return v ->
          (List.length (network (final r)) < List.length (network w))%nat).
Proof.
  induction k as [|k IH]; intros m p b a le w; cbv zeta.
  - simpl. destruct le; simpl; repeat split; discriminate.
  - rewrite request_loop_step, bind_run.
    destruct (dispatch_result m p b a w) as (Cd & Hd).
    destruct (outcome (dispatch D m p b a w)) as [resp| t |] eqn:Eo.
    + destruct Hd as [Bd Nd].
      set (w1 := final (dispatch D m p b a w)) in *.
      assert (S : let s := settle D k m p b a resp w1 in
                  callbacks (events s) = []
                  /\ returned_bodies (events s)
                     = (if ok resp then [] else returned (outcome s))
                  /\ (ok resp = true ->
                      returned (outcome s)
                      = match resp_json resp with Some v => [v] | None => [] end)
                  /\ (List.length (network (final s)) <= List.length (network w1))%nat).
      { cbv zeta. split; [|split; [|split]].
        - unfold settle. destruct (ok resp).
          + unfold json. destruct (resp_json resp); reflexivity.
          + destruct (_ && _); [apply IH|]. destruct (_ && _); [apply IH | reflexivity].
        - unfold settle. destruct (ok resp).
          + unfold json. destruct (resp_json resp); reflexivity.
          + destruct (_ && _); [apply IH|]. destruct (_ && _); [apply IH | reflexivity].
        - intros Hok. unfold settle. rewrite Hok. unfold json.
          destruct (resp_json resp); reflexivity.
        - unfold settle. destruct (ok resp); [apply sound_json|].
          destruct (_ && _).
          + apply (sound_network _ _ (sound_request_loop D k m p b (a + 1) _
                                        (with_token_cleared w1))).
          + destruct (_ && _); [apply sound_request_loop | apply sound_throw]. }
      cbv zeta in S. destruct S as (Cs & Bs & Js & Ns).
      unfold after. cbn [outcome events final].
      rewrite callbacks_app, returned_bodies_app, Cd, Cs, Bd, Bs.
      repeat split.
      * destruct (ok resp); [|reflexivity].
        rewrite (Js eq_refl), app_nil_r. reflexivity.
      * intros v _. lia.
    + cbn [outcome events]. repeat split; auto. discriminate.
    + cbn [outcome events]. repeat split; auto. discriminate.
Qed.

Lemma request_result m p b w :
  let r := HttpClient.request D m p b w in
  callbacks (events r) = []
  /\ returned_bodies (events r) = returned (outcome r)
  /\ (forall v, outcome r = Return v ->
        (List.length (network (final r)) < List.length (network w))%nat).
Proof.
  cbv zeta. unfold HttpClient.request. rewrite bind_run.
  destruct (auth_only_views _ (ensureAuth_events D w)) as (_ & B & C & _).
  pose proof (sound_network _ _ (sound_ensureAuth D w)) as N.
  remember (HttpClient.ensureAuth D w) as ra eqn:Era.
  destruct (outcome ra); unfold after; cbn [events outcome final].
  - rewrite bind_run. cbn [get_client outcome final events]. rewrite after_nil.
    rewrite callbacks_app, returned_bodies_app, B, C. cbn [app].
    destruct (request_loop_result
                (Z.to_nat (maxRetries (client (final ra)) + 1)) m p b 0 None (final ra))
      as (H1 & H2 & H3).
    repeat split; auto. intros v Hv. specialize (H3 v Hv). lia.
  - repeat split; auto. discriminate.
  - repeat split; auto. discriminate.
Qed.

Lemma sanitizePathParam_run value name w :
  exists o, sanitizePathParam value name w
            = {| outcome := o; final := w; events := [] |}
            /\ o <> OutOfFuel.
Proof.
  unfold sanitizePathParam.
  destruct (String.eqb value ""); [eexists; split; [reflexivity | discriminate]|].
  destruct (negb _); [eexists; split; [reflexivity | discriminate]|].
  destruct (includes_dotdot _); eexists; (split; [reflexivity | discriminate]).
Qed.

Lemma get_result txnId w :
  let r := TransactionsResource.get D txnId w in
  callbacks (events r) = []
  /\ returned_bodies (events r) = returned (outcome r)
  /\ (forall v, outcome r = Return v ->
        (List.length (network (final r)) < List.length (network w))%nat)
  /\ outcome r <> OutOfFuel.
Proof.
  cbv zeta. unfold TransactionsResource.get, HttpClient.get. rewrite bind_run.
  destruct (sanitizePathParam_run txnId "txnId" w) as (o & -> & Ho).
  destruct o as [s| t |]; cbn [outcome events final].
  - rewrite after_nil.
    destruct (request_result "GET" ("/api/v2/transaction/" ++ txnId) JUndefined w)
      as (H1 & H2 & H3).
    repeat split; auto.
    apply (sound_fuel _ _ (sound_request D "GET" _ JUndefined w)).
  - repeat split; auto; discriminate.
  - congruence.
Qed.

End Polls.

(* ================================================================== *)
(** * The polling loop *)
(* ================================================================== *)



Lemma prop_run v k w :
  prop v k w
  = if nullish v then {| outcome := Throw JsTypeError; final := w; events := [] |}
    else {| outcome := Return (opt_prop v k); final := w; events := [] |}.
Proof. destruct v; reflexivity. Qed.

Lemma states_of_one v :
  states_of [v] = if nullish v then [] else [opt_prop v "txnState"].
Proof. destruct v; reflexivity. Qed.

Lemma states_of_app l1 l2 : states_of (l1 ++ l2) = (states_of l1 ++ states_of l2)%list.
Proof.
  induction l1 as [|v l1 IH]; simpl; [reflexivity|].
  destruct v; simpl; rewrite ?IH; reflexivity.
Qed.

Lemma observed_states_app l1 l2 :
  observed_states (l1 ++ l2) = (observed_states l1 ++ observed_states l2)%list.
Proof. unfold observed_states. rewrite returned_bodies_app. apply states_of_app. Qed.

Section Waiting.

Variable D : JsVal -> option Z.


Lemma wait_loop_step fuel txnId interval tmo cb start last w :
  TransactionsResource.wait_loop D (S fuel) txnId interval tmo cb start last w
  = if now w - start <? tmo then
      let rg := TransactionsResource.get D txnId w in
      match outcome rg with
      | Return txn =>
          if nullish txn then
            {| outcome := Throw JsTypeError; final := final rg; events := events rg |}
          else
            let s := opt_prop txn "txnState" in
            if terminal s then
              {| outcome := Return txn; final := final rg;
                 events := (events rg ++ report cb last s txn)%list |}
            else
              after (events rg ++ report cb last s txn ++ [EvSleep interval])%list
                (TransactionsResource.wait_loop D fuel txnId interval tmo cb start
                   (next_last last s) (slept interval (final rg)))
      | Throw t => {| outcome := Throw t; final := final rg; events := events rg |}
      | OutOfFuel => {| outcome := OutOfFuel; final := final rg; events := events rg |}
      end
    else
      {| outcome := Throw (JsError ("Transaction " ++ txnId ++ " did not complete within "
                                    ++ string_of_Z tmo ++ "ms"));
         final := w; events := [] |}.
Proof.
  cbn [TransactionsResource.wait_loop]. rewrite bind_run.
  cbn [Date_now outcome final events]. rewrite after_nil.
  destruct (now w - start <? tmo); [|reflexivity].
  rewrite bind_run. cbv zeta.
  remember (TransactionsResource.get D txnId w) as rg eqn:Erg.
  destruct (outcome rg) as [txn| t |]; try reflexivity.
  rewrite bind_run, prop_run.
  destruct (nullish txn) eqn:En; cbn [outcome final events].
  - unfold after. cbn [outcome final events]. rewrite app_nil_r. reflexivity.
  - rewrite after_nil. fold (terminal (opt_prop txn "txnState")).
    unfold report, next_last.
    destruct (strict_eq (opt_prop txn "txnState") last), cb,
      (terminal (opt_prop txn "txnState"));
      unfold bind, after, ret, emit, sleep, slept;
      cbn [negb andb outcome final events app];
      rewrite ?app_nil_r, <- ?app_assoc; reflexivity.
Qed.

End Waiting.

Section WaitingLoop.

Variable D : JsVal -> option Z.

Lemma callbacks_report cb last s txn :
  callbacks (report cb last s txn)
  = if negb (strict_eq s last) && cb then [s] else [].
Proof. unfold report. destruct (negb _ && cb); reflexivity. Qed.

Lemma observed_report cb last s txn : observed_states (report cb last s txn) = [].
Proof. unfold report. destruct (negb _ && cb); reflexivity. Qed.

Lemma get_observed txnId w :
  let rg := TransactionsResource.get D txnId w in
  observed_states (events rg)
  = match outcome rg with
    | Return txn => if nullish txn then [] else [opt_prop txn "txnState"]
    | _ => []
    end.
Proof.
  cbv zeta. unfold observed_states.
  destruct (get_result D txnId w) as (_ & -> & _).
  destruct (outcome _); try reflexivity. apply states_of_one.
Qed.

Lemma wait_loop_callbacks fuel :
  forall txnId interval tmo cb start last w,
    let r := TransactionsResource.wait_loop D fuel txnId interval tmo cb start last w in
    callbacks (events r)
    = if cb then transitions last (observed_states (events r)) else [].
Proof.
  induction fuel as [|fuel IH]; intros txnId interval tmo cb start last w; cbv zeta.
  - simpl. destruct cb; reflexivity.
  - rewrite wait_loop_step.
    destruct (now w - start <? tmo); [|destruct cb; reflexivity].
    cbv zeta.
    destruct (get_result D txnId w) as (Cg & _).
    pose proof (get_observed txnId w) as Og. cbv zeta in Og.
    remember (TransactionsResource.get D txnId w) as rg eqn:Erg.
    destruct (outcome rg) as [txn| t |].
    + destruct (nullish txn); cbn [events].
      { rewrite Cg, Og. destruct cb; reflexivity. }
      set (s := opt_prop txn "txnState") in *.
      destruct (terminal s).
      * cbn [events]. rewrite callbacks_app, observed_states_app, Cg, Og,
          callbacks_report, observed_report. cbn [app transitions].
        unfold next_last. destruct (strict_eq s last), cb; reflexivity.
      * unfold after. cbn [events].
        rewrite !callbacks_app, !observed_states_app, Cg, Og,
          callbacks_report, observed_report, IH.
        cbn [app transitions callbacks observed_states returned_bodies states_of].
        unfold next_last. destruct (strict_eq s last), cb; reflexivity.
    + cbn [events]. rewrite Cg, Og. destruct cb; reflexivity.
    + cbn [events]. rewrite Cg, Og. destruct cb; reflexivity.
Qed.

Lemma wait_loop_total fuel :
  forall txnId interval tmo cb start last w,
    (List.length (network w) < fuel)%nat ->
    outcome (TransactionsResource.wait_loop D fuel txnId interval tmo cb start last w)
    <> OutOfFuel.
Proof.
  induction fuel as [|fuel IH]; intros txnId interval tmo cb start last w Hn; [lia|].
  rewrite wait_loop_step.
  destruct (now w - start <? tmo); [|discriminate].
  cbv zeta.
  destruct (get_result D txnId w) as (_ & _ & Ng & Fg).
  remember (TransactionsResource.get D txnId w) as rg eqn:Erg.
  destruct (outcome rg) as [txn| t |]; [|discriminate|congruence].
  specialize (Ng txn eq_refl).
  destruct (nullish txn); [discriminate|].
  destruct (terminal _); [discriminate|].
  unfold after. cbn [outcome]. apply IH. simpl. lia.
Qed.

(** The polls of a run: a run that returns saw a terminal state last and
    only other states before; a run that does not return saw no terminal
    state at all. *)
Lemma wait_loop_polls fuel :
  forall txnId interval tmo cb start last w,
    let r := TransactionsResource.wait_loop D fuel txnId interval tmo cb start last w in
    match outcome r with
    | Return txn =>
        nullish txn = false
        /\ terminal (opt_prop txn "txnState") = true
        /\ exists earlier,
             observed_states (events r) = (earlier ++ [opt_prop txn "txnState"])%list
             /\ Forall (fun s => terminal s = false) earlier
    | _ => Forall (fun s => terminal s = false) (observed_states (events r))
    end.
Proof.
  induction fuel as [|fuel IH]; intros txnId interval tmo cb start last w; cbv zeta.
  - simpl. constructor.
  - rewrite wait_loop_step.
    destruct (now w - start <? tmo); [|constructor].
    cbv zeta.
    pose proof (get_observed txnId w) as Og. cbv zeta in Og.
    remember (TransactionsResource.get D txnId w) as rg eqn:Erg.
    destruct (outcome rg) as [txn| t |].
    + destruct (nullish txn) eqn:En; cbn [outcome events].
      { rewrite Og. constructor. }
      set (s := opt_prop txn "txnState") in *.
      destruct (terminal s) eqn:Et.
      * cbn [outcome events]. repeat split; auto.
        exists []. rewrite observed_states_app, Og, observed_report. split; [reflexivity | constructor].
      * unfold after. cbn [outcome events].
        specialize (IH txnId interval tmo cb start (next_last last s)
                      (slept interval (final rg))). cbv zeta in IH.
        rewrite !observed_states_app, Og, observed_report.
        cbn [app observed_states returned_bodies states_of].
        destruct (outcome (TransactionsResource.wait_loop D fuel txnId interval tmo cb
                             start (next_last last s) (slept interval (final rg)))).
        -- destruct IH as (H1 & H2 & earlier & -> & H3).
           repeat split; auto. exists (s :: earlier). split; [reflexivity|].
           constructor; assumption.
        -- constructor; assumption.
        -- constructor; assumption.
    + cbn [outcome events]. rewrite Og. constructor.
    + cbn [outcome events]. rewrite Og. constructor.
Qed.


Lemma waitForCompletion_run txnId options w :
  TransactionsResource.waitForCompletion D txnId options w
  = TransactionsResource.wait_loop D (S (List.length (network w))) txnId
      (wait_interval options) (wait_timeout options) (wait_callback options)
      (now w) (JStr "") w.
Proof.
  unfold TransactionsResource.waitForCompletion. rewrite bind_run.
  cbn [Date_now outcome final events]. rewrite after_nil. reflexivity.
Qed.

End WaitingLoop.



Lemma count_dispatch_app l1 l2 :
  count_dispatch (l1 ++ l2) = (count_dispatch l1 + count_dispatch l2)%nat.
Proof.
  induction l1 as [|s l1 IH]; simpl; [reflexivity|].
  destruct s; simpl; rewrite IH; reflexivity.
Qed.

Lemma count_dispatch_schedule n : forall a, count_dispatch (attempt_schedule a n) = n.
Proof.
  induction n as [|n IH]; intros a; simpl; [reflexivity|].
  rewrite count_dispatch_app. simpl. rewrite IH.
  destruct (0 <? a); reflexivity.
Qed.

(** C1.  The events of a run of [request], reduced to its sleeps and its
    dispatched calls, are an initial part of the schedule "attempt 0, then
    for attempt = 1 .. maxRetries a backoff of 2^(attempt-1) seconds
    followed by the attempt": at most maxRetries+1 attempts are made, and
    each attempt after the first comes right after its backoff.  With
    maxRetries = 2, a token that stays valid and the answers 500, 500, 200,
    the run returns the body of the 200 after exactly two sleeps, of 1000
    ms then 2000 ms. *)
Theorem request_backoff_schedule :
  forall (D : JsVal -> option Z) (method path : string) (reqBody : JsVal)
         (w : World),
    let run := HttpClient.request D method path reqBody w in
    starts (attempt_view (events run))
           (attempt_schedule 0 (Z.to_nat (maxRetries (client w) + 1)))
    /\ (count_dispatch (attempt_view (events run))
        <= Z.to_nat (maxRetries (client w) + 1))%nat
    /\ (forall x1 x2 x3 r1 r2 r3 v,
          maxRetries (client w) = 2 ->
          network w = [x1; x2; x3] ->
          settles x1 = Responded r1 -> settles x2 = Responded r2 ->
          settles x3 = Responded r3 ->
          resp_status r1 = 500 -> resp_status r2 = 500 -> resp_status r3 = 200 ->
          resp_json r3 = Some v ->
          valid_at (client w) (now w) = true ->
          valid_at (client w) (now w + elapsed x1 + 1000) = true ->
          valid_at (client w) (now w + elapsed x1 + 1000 + elapsed x2 + 2000) = true ->
          outcome run = Return v
          /\ sleeps (events run) = [1000; 2000]
          /\ attempt_view (events run)
             = [Dispatch; Backoff 1000; Dispatch; Backoff 2000; Dispatch]
          /\ network (final run) = []).
Proof.
  intros D method path reqBody w run.
  pose proof (request_view D method path reqBody w) as V. fold run in V.
  split; [exact V|]. split.
  - destruct V as [rest E].
    rewrite <- (count_dispatch_schedule (Z.to_nat (maxRetries (client w) + 1)) 0), E,
      count_dispatch_app. lia.
  - intros. apply (request_500_500_200 D method path reqBody w x1 x2 x3 r1 r2 r3 v);
      assumption.
Qed.



(** C3 (as the code has it).  [waitForCompletion] calls [onStateChange]
    once for each observed state that differs from the state observed just
    before it, the comparison starting from the empty string: the first
    state observed is reported too.  Polls seeing quoted, srccreated,
    completed give three calls; polls seeing srccreated, completed give
    two.  The run ends, and when it returns the state is terminal. *)
Theorem onStateChange_once_per_change :
  forall (D : JsVal -> option Z) (txnId : string)
         (options : option TransactionsResource.WaitOptions) (w : World),
    let run := TransactionsResource.waitForCompletion D txnId options w in
    callbacks (events run)
    = (if wait_callback options
       then transitions (JStr "") (observed_states (events run)) else [])
    /\ outcome run <> OutOfFuel
    /\ (forall txn, outcome run = Return txn ->
          terminal (opt_prop txn "txnState") = true)
    /\ (wait_callback options = true ->
        observed_states (events run)
        = [JStr "quoted"; JStr "srccreated"; JStr "completed"] ->
        callbacks (events run) = [JStr "quoted"; JStr "srccreated"; JStr "completed"])
    /\ (wait_callback options = true ->
        observed_states (events run) = [JStr "srccreated"; JStr "completed"] ->
        callbacks (events run) = [JStr "srccreated"; JStr "completed"]).
Proof.
  intros D txnId options w run.
  assert (C : callbacks (events run)
              = if wait_callback options
                then transitions (JStr "") (observed_states (events run)) else []).
  { unfold run. rewrite waitForCompletion_run. apply wait_loop_callbacks. }
  split; [exact C|]. split; [|split; [|split]].
  - unfold run. rewrite waitForCompletion_run. apply wait_loop_total. lia.
  - intros txn Ho. unfold run in Ho. rewrite waitForCompletion_run in Ho.
    pose proof (wait_loop_polls D (S (List.length (network w))) txnId
                  (wait_interval options) (wait_timeout options)
                  (wait_callback options) (now w) (JStr "") w) as P.
    cbv zeta in P. rewrite Ho in P. apply P.
  - intros Hc Ho. rewrite C, Hc, Ho. reflexivity.
  - intros Hc Ho. rewrite C, Hc, Ho. reflexivity.
Qed.



(* ================================================================== *)
(** * The identifier pattern of [subscribe] *)
(* ================================================================== *)

(** The class [[0-9a-f]] under the flag [i] is the set of the
    twenty-two hexadecimal digits: checked on every character. *)
Lemma is_hex_spec c :
  TransactionsResource.is_hex c = true <-> In c hexadecimal_digits.
Proof.
  assert (E : TransactionsResource.is_hex c
              = existsb (Ascii.eqb c) hexadecimal_digits).
  { destruct c as [[] [] [] [] [] [] [] []]; reflexivity. }
  rewrite E, existsb_exists. split.
  - intros (x & Hx & Hc). apply Ascii.eqb_eq in Hc. subst x. exact Hx.
  - intros H. exists c. split; [exact H | apply Ascii.eqb_refl].
Qed.

Lemma eat_hex_spec n :
  forall cs rest,
    TransactionsResource.eat_hex n cs = Some rest
    <-> exists g, cs = (g ++ rest)%list /\ hex_group n g.
Proof.
  unfold hex_group.
  induction n as [|n IH]; intros cs rest; simpl.
  - split.
    + intros H. injection H as <-. exists []. auto.
    + intros (g & -> & Hl & _). destruct g; [reflexivity | discriminate].
  - split.
    + destruct cs as [|c cs]; [discriminate|].
      destruct (TransactionsResource.is_hex c) eqn:Hc; [|discriminate].
      intros H. apply IH in H. destruct H as (g & -> & Hl & Hf).
      exists (c :: g). simpl. rewrite Hl.
      split; [reflexivity|]. split; [reflexivity|].
      constructor; [apply is_hex_spec; exact Hc | exact Hf].
    + intros (g & -> & Hl & Hf). destruct g as [|c g]; [discriminate|].
      inversion Hf as [|c' g' Hc Hg]. subst c' g'.
      apply is_hex_spec in Hc. simpl. rewrite Hc.
      apply IH. exists g. injection Hl as Hl. auto.
Qed.

Lemma eat_dash_spec cs rest :
  TransactionsResource.eat_dash cs = Some rest <-> cs = ("-"%char :: rest)%list.
Proof.
  unfold TransactionsResource.eat_dash. destruct cs as [|c cs].
  - split; discriminate.
  - destruct (Ascii.eqb_spec c "-"%char) as [-> | Hn].
    + split; intros H; injection H as ->; reflexivity.
    + split; [discriminate|]. intros H. injection H as -> _. contradiction.
Qed.

Lemma and_then_some {A B} (o : option A) (f : A -> option B) b :
  TransactionsResource.and_then o f = Some b <-> exists a, o = Some a /\ f a = Some b.
Proof.
  destruct o as [a|]; simpl.
  - split; [eauto|]. intros (a' & H & H'). injection H as <-. exact H'.
  - split; [discriminate|]. intros (a' & H & _). discriminate.
Qed.

Lemma UUID_RE_test_spec s :
  TransactionsResource.UUID_RE_test s = true <-> canonical_uuid s.
Proof.
  unfold TransactionsResource.UUID_RE_test, canonical_uuid.
  match goal with |- (match ?o with _ => _ end) = true <-> _ =>
    assert (H : o = Some [] <-> (match o with Some [] => true | _ => false end) = true)
  end.
  { destruct (TransactionsResource.and_then _ _) as [[|? ?]|]; split;
      intros; try discriminate; reflexivity. }
  rewrite <- H. clear H.
  repeat setoid_rewrite and_then_some.
  repeat setoid_rewrite eat_hex_spec.
  repeat setoid_rewrite eat_dash_spec.
  split.
  - intros (r1 & (g1 & E1 & H1) & r2 & -> & r3 & (g2 & -> & H2) & r4 & -> & r5
            & (g3 & -> & H3) & r6 & -> & r7 & (g4 & -> & H4) & r8 & -> & g5 & -> & H5).
    exists g1, g2, g3, g4, g5. rewrite app_nil_r in E1. auto 10.
  - intros (g1 & g2 & g3 & g4 & g5 & E & H1 & H2 & H3 & H4 & H5).
    eexists. split; [exists g1; split; [exact E | exact H1]|].
    eexists. split; [reflexivity|].
    eexists. split; [exists g2; split; [reflexivity | exact H2]|].
    eexists. split; [reflexivity|].
    eexists. split; [exists g3; split; [reflexivity | exact H3]|].
    eexists. split; [reflexivity|].
    eexists. split; [exists g4; split; [reflexivity | exact H4]|].
    eexists. split; [reflexivity|].
    exists g5. split; [rewrite app_nil_r; reflexivity | exact H5].
Qed.

Lemma terminal_iff v :
  terminal v = true
  <-> exists s, v = JStr s
                /\ In s ["completed"; "failed"; "expired"; "rejected"; "error";
                         "usercanceled"].
Proof.
  unfold terminal, TransactionsResource.includes, TransactionsResource.FINAL_STATES.
  split.
  - destruct v; try discriminate. intros H.
    apply existsb_exists in H. destruct H as (x & Hin & Heq).
    apply String.eqb_eq in Heq. subst x. eauto.
  - intros (s & -> & Hin). apply existsb_exists. exists s.
    split; [assumption | apply String.eqb_refl].
Qed.

(** C5 (as the code has it).  [waitForCompletion] returns the transaction
    of a poll exactly when its state is in the list the method holds,
    which is completed, failed, expired, rejected, error, usercanceled;
    on the states the SDK documents this is membership in [FinalStates].
    A terminal poll ends the run at once, any other is followed by a sleep
    of the interval and another pass. *)
Theorem waitForCompletion_returns_on_final_states :
  forall (D : JsVal -> option Z) (txnId : string),
    (forall v, terminal v = true
               <-> exists s, v = JStr s
                             /\ In s ["completed"; "failed"; "expired"; "rejected";
                                      "error"; "usercanceled"])
    /\ (forall s, In s Utils.TransactionStates ->
                  terminal (JStr s) = existsb (String.eqb s) Utils.FinalStates)
    /\ (forall fuel interval tmo cb start last w txn w1 evs,
          now w - start < tmo ->
          TransactionsResource.get D txnId w
          = {| outcome := Return txn; final := w1; events := evs |} ->
          nullish txn = false ->
          let s := opt_prop txn "txnState" in
          let pass := TransactionsResource.wait_loop D (S fuel) txnId interval tmo
                        cb start last w in
          (terminal s = true ->
             pass = {| outcome := Return txn; final := w1;
                       events := (evs ++ report cb last s txn)%list |})
          /\ (terminal s = false ->
                pass = after (evs ++ report cb last s txn ++ [EvSleep interval])%list
                         (TransactionsResource.wait_loop D fuel txnId interval tmo
                            cb start (next_last last s) (slept interval w1))))
    /\ (forall options w,
          let run := TransactionsResource.waitForCompletion D txnId options w in
          outcome run <> OutOfFuel
          /\ match outcome run with
             | Return txn =>
                 terminal (opt_prop txn "txnState") = true
                 /\ exists earlier,
                      observed_states (events run)
                      = (earlier ++ [opt_prop txn "txnState"])%list
                      /\ Forall (fun s => terminal s = false) earlier
             | _ => Forall (fun s => terminal s = false)
                      (observed_states (events run))
             end).
Proof.
  intros D txnId. split; [exact terminal_iff|]. split; [|split].
  - intros s Hin. simpl in Hin.
    repeat (destruct Hin as [<- | Hin]; [reflexivity|]). contradiction.
  - intros fuel interval tmo cb start last w txn w1 evs Ht Eg En s pass.
    unfold pass. rewrite wait_loop_step.
    replace (now w - start <? tmo) with true by (symmetry; apply Z.ltb_lt; assumption).
    cbv zeta. rewrite Eg. cbn [outcome final events]. rewrite En. fold s.
    split; intros ->; reflexivity.
  - intros options w run. split.
    + unfold run. rewrite waitForCompletion_run. apply wait_loop_total. lia.
    + unfold run. rewrite waitForCompletion_run.
      pose proof (wait_loop_polls D (S (List.length (network w))) txnId
                    (wait_interval options) (wait_timeout options)
                    (wait_callback options) (now w) (JStr "") w) as P.
      cbv zeta in P.
      destruct (outcome _); auto. destruct P as (_ & P1 & P2). auto.
Qed.



(** The session a successful answer of the token endpoint leaves. *)
Lemma authenticate_session D w x rest r raw :
  network w = (x :: rest)%list -> settles x = Responded r ->
  ok r = true -> resp_json r = Some raw -> nullish raw = false ->
  let result := js_nullish (opt_prop raw "data") raw in
  let after_auth := final (HttpClient.authenticate D w) in
  outcome (HttpClient.authenticate D w) = Return result
  /\ accountId (client after_auth) = opt_prop result "accountId"
  /\ accessToken (client after_auth) = opt_prop result "accessToken"
  /\ tokenExpiry (client after_auth)
     = match opt_prop result "expiredAt" with
       | JNum n => Some n
       | JNaN => None
       | v => D v
       end
  /\ now after_auth = now w + elapsed x.
Proof.
  intros En Es Hok J Hn. cbv zeta.
  unfold HttpClient.authenticate.
  rewrite bind_run. cbn [get_client outcome final events]. rewrite after_nil.
  rewrite bind_run, rawFetch_run, En, Es. cbn [outcome final events].
  rewrite Hok. cbn [negb]. unfold json. rewrite J.
  rewrite bind_run. cbn [ret outcome final events]. rewrite after_nil.
  rewrite bind_run, prop_run, Hn. cbn [outcome final events]. rewrite after_nil.
  rewrite bind_run. cbn [get_client outcome final events]. rewrite after_nil.
  rewrite bind_run. cbn [set_client ret after outcome final events client now].
  repeat split. cbn [tokenExpiry].
  destruct (opt_prop _ "expiredAt"); reflexivity.
Qed.

(** C6 (as the code has it).  With a valid token [ensureAuth] does
    nothing: no event, the world unchanged.  Two calls in a row issue at
    most one authentication request whenever the first one leaves a valid
    token, as it does when the token endpoint answers with an account, a
    token and an expiry more than 60 000 ms after the time of the answer. *)
Theorem ensureAuth_noop_when_valid :
  forall (D : JsVal -> option Z) (w : World),
    let first := HttpClient.ensureAuth D w in
    let second := HttpClient.ensureAuth D (final first) in
    (HttpClient.isTokenValid w = true ->
       first = {| outcome := Return tt; final := w; events := [] |})
    /\ (HttpClient.isTokenValid (final first) = true ->
        second = {| outcome := Return tt; final := final first; events := [] |}
        /\ (List.length (auth_calls (events first ++ events second)) <= 1)%nat)
    /\ (forall x rest r raw expiry,
          HttpClient.isTokenValid w = false ->
          network w = (x :: rest)%list -> settles x = Responded r ->
          ok r = true -> resp_json r = Some raw -> nullish raw = false ->
          let result := js_nullish (opt_prop raw "data") raw in
          truthy (opt_prop result "accountId") = true ->
          truthy (opt_prop result "accessToken") = true ->
          opt_prop result "expiredAt" = JNum expiry ->
          now w + elapsed x < expiry - HttpClient.TOKEN_REFRESH_BUFFER_MS ->
          HttpClient.isTokenValid (final first) = true
          /\ List.length (auth_calls (events first ++ events second)) = 1%nat).
Proof.
  intros D w first second.
  assert (V : HttpClient.isTokenValid (final first) = true ->
              second = {| outcome := Return tt; final := final first; events := [] |})
    by (intros Hv; apply ensureAuth_valid; exact Hv).
  split; [apply ensureAuth_valid|]. split.
  - intros Hv. split; [exact (V Hv)|]. rewrite (V Hv). cbn [events].
    rewrite app_nil_r.
    destruct (ensureAuth_events D w) as [E1 | (c & t & res & E1)];
      fold first in E1; rewrite E1; simpl; lia.
  - intros x rest r raw expiry Hi En Es Hok J Hn result Ha Ht He Hlt.
    destruct (authenticate_session D w x rest r raw En Es Hok J Hn)
      as (Ao & A1 & A2 & A3 & A4). fold result in Ao, A1, A2, A3.
    assert (F : final first = final (HttpClient.authenticate D w)
                /\ events first = events (HttpClient.authenticate D w)).
    { unfold first. rewrite ensureAuth_run, Hi, bind_run, Ao.
      unfold after. cbn [ret final events]. rewrite app_nil_r. auto. }
    destruct F as [Ff Fe].
    assert (Hv : HttpClient.isTokenValid (final first) = true).
    { rewrite Ff. unfold HttpClient.isTokenValid.
      rewrite A1, A2, A3, A4, Ha, Ht, He. cbn [andb]. apply Z.ltb_lt. exact Hlt. }
    split; [exact Hv|]. rewrite (V Hv), Fe. cbn [events]. rewrite app_nil_r.
    destruct (authenticate_events D w) as [res ->]. reflexivity.
Qed.





(** The clamp of the code followed by [AbortSignal.timeout], against
    the timer described in words. *)
Lemma clamped_signal ms w :
  TransactionsResource.AbortSignal_timeout (TransactionsResource.clamp_timeout ms) w
  = match effective_timeout ms with
    | Some t => ret t w
    | None => throw JsRangeError w
    end.
Proof.
  unfold TransactionsResource.clamp_timeout, TransactionsResource.AbortSignal_timeout,
    effective_timeout, clamp_spec, Math_max, Math_min.
  destruct ms as [n|below| | |]; try reflexivity.
  - destruct (Z.ltb_spec n 5000).
    + replace (Z.min (Z.max n 5000) 300000) with 5000 by lia. reflexivity.
    + destruct (Z.ltb_spec 300000 n).
      * replace (Z.min (Z.max n 5000) 300000) with 300000 by lia. reflexivity.
      * replace (Z.min (Z.max n 5000) 300000) with n by lia.
        replace ((0 <=? n) && (n <=? 4294967295)) with true; [reflexivity|].
        symmetry. apply andb_true_iff. split; apply Z.leb_le; lia.
  - destruct (Z.ltb_spec below 5000); [reflexivity|].
    destruct (Z.ltb_spec below 300000), (Z.leb_spec 300000 below);
      try lia; reflexivity.
Qed.




(* ================================================================== *)
(** * The signature *)
(* ================================================================== *)

Lemma hex_of_bytes_length bs :
  String.length (Crypto.hex_of_bytes bs) = (2 * List.length bs)%nat.
Proof. induction bs as [|b bs IH]; simpl; [reflexivity | rewrite IH; lia]. Qed.

Lemma digest_bytes_length s : List.length (Crypto.digest_bytes s) = 32%nat.
Proof. destruct s as [[[[[[[a b] c] d] e] f] g] h]. reflexivity. Qed.

Lemma sha256_length msg : List.length (Crypto.sha256 msg) = 32%nat.
Proof. unfold Crypto.sha256. apply digest_bytes_length. Qed.

Lemma hex_digit_lower n : lower_hex_char (Crypto.hex_digit n) = true.
Proof.
  unfold Crypto.hex_digit.
  assert (H : 0 <= Z.land n 15 < 16).
  { change 15 with (Z.ones 4). rewrite Z.land_ones by lia.
    apply Z.mod_pos_bound. reflexivity. }
  remember (Z.land n 15) as k eqn:E. clear E.
  assert (C : k = 0 \/ k = 1 \/ k = 2 \/ k = 3 \/ k = 4 \/ k = 5 \/ k = 6 \/ k = 7 \/
              k = 8 \/ k = 9 \/ k = 10 \/ k = 11 \/ k = 12 \/ k = 13 \/ k = 14 \/
              k = 15) by lia.
  repeat (destruct C as [-> | C]; [reflexivity|]). subst k. reflexivity.
Qed.

Lemma hex_of_bytes_lower bs :
  forallb lower_hex_char (list_ascii_of_string (Crypto.hex_of_bytes bs)) = true.
Proof.
  induction bs as [|b bs IH]; simpl; [reflexivity|].
  rewrite !hex_digit_lower. exact IH.
Qed.

Lemma list_ascii_of_append s t :
  list_ascii_of_string (s ++ t)
  = (list_ascii_of_string s ++ list_ascii_of_string t)%list.
Proof. induction s as [|c s IH]; simpl; [reflexivity | rewrite IH; reflexivity]. Qed.

Lemma list_ascii_inj s t : list_ascii_of_string s = list_ascii_of_string t -> s = t.
Proof.
  intros H. rewrite <- (string_of_list_ascii_of_string s),
              <- (string_of_list_ascii_of_string t), H. reflexivity.
Qed.

Lemma append_inv_head s t1 t2 : s ++ t1 = s ++ t2 -> t1 = t2.
Proof.
  intros H. apply list_ascii_inj. apply (f_equal list_ascii_of_string) in H.
  rewrite !list_ascii_of_append in H. exact (app_inv_head _ _ _ H).
Qed.

Lemma append_inv_tail s1 s2 t : s1 ++ t = s2 ++ t -> s1 = s2.
Proof.
  intros H. apply list_ascii_inj. apply (f_equal list_ascii_of_string) in H.
  rewrite !list_ascii_of_append in H. exact (app_inv_tail _ _ _ H).
Qed.

(** C7 (as the code has it).  [generateSignature] is the lowercase-hex
    HMAC-SHA256, keyed by the secret, of [{apiKey}&payload={payload}]: 64
    characters among 0-9 and a-f, the same for the same key, secret and
    payload.  A change of the key alone, or of the payload alone, changes
    the string that is signed; nothing is stated about the digests of
    different inputs. *)
Theorem generateSignature_hmac_hex :
  forall (c c' : Client) (payload payload' : string),
    HttpClient.generateSignature c payload
      = sign_spec (apiKey c) (apiSecret c) payload
    /\ String.length (HttpClient.generateSignature c payload) = 64%nat
    /\ forallb lower_hex_char
         (list_ascii_of_string (HttpClient.generateSignature c payload)) = true
    /\ (apiKey c' = apiKey c -> apiSecret c' = apiSecret c -> payload' = payload ->
        HttpClient.generateSignature c' payload'
        = HttpClient.generateSignature c payload)
    /\ (apiKey c' <> apiKey c ->
        HttpClient.stringToSign c' payload <> HttpClient.stringToSign c payload)
    /\ (payload' <> payload ->
        HttpClient.stringToSign c payload' <> HttpClient.stringToSign c payload).
Proof.
  intros c c' payload payload'.
  assert (E : forall x q, HttpClient.generateSignature x q
                          = sign_spec (apiKey x) (apiSecret x) q) by reflexivity.
  split; [apply E|]. split; [|split; [|split; [|split]]].
  - unfold HttpClient.generateSignature, Crypto.digest_hex.
    rewrite hex_of_bytes_length. unfold Crypto.hmac_sha256.
    rewrite sha256_length. reflexivity.
  - unfold HttpClient.generateSignature, Crypto.digest_hex.
    apply hex_of_bytes_lower.
  - intros Hk Hs Hp. rewrite !E, Hk, Hs, Hp. reflexivity.
  - intros Hk H. apply Hk. unfold HttpClient.stringToSign in H.
    exact (append_inv_tail _ _ _ H).
  - intros Hp H. apply Hp. unfold HttpClient.stringToSign in H.
    apply append_inv_head in H. exact (append_inv_head _ _ _ H).
Qed.

(* ================================================================== *)
(** * [cancel] *)
(* ================================================================== *)

(** C10.  [cancel] throws the error saying that the operation is not
    available, whatever the identifier, with no event (no HTTP request) and
    the world, session included, as it was. *)
Theorem cancel_always_throws :
  forall (txnId : string) (w : World),
    TransactionsResource.cancel txnId w
    = {| outcome := Throw (JsError
           "transactions.cancel() is not available. Unconfirmed transactions expire automatically.");
         final := w;
         events := [] |}.
Proof. intros. reflexivity. Qed.

(* ================================================================== *)
(** * The diagnostic lines of a request *)
(* ================================================================== *)

Lemma log_lines_app l1 l2 :
  log_lines (l1 ++ l2) = (log_lines l1 ++ log_lines l2)%list.
Proof.
  induction l1 as [|e l1 IH]; simpl; [reflexivity|].
  destruct e; simpl; rewrite ?IH; reflexivity.
Qed.

Lemma lines_follow_calls_app m p w w' evs evs' :
  debug (client w') = debug (client w) ->
  lines_follow_calls m p w evs -> lines_follow_calls m p w' evs' ->
  lines_follow_calls m p w (evs ++ evs').
Proof.
  unfold lines_follow_calls. intros Hd [L1 F1] [L2 F2].
  rewrite log_lines_app, attempt_view_app, count_dispatch_app, length_app, L1, L2, Hd.
  split; [destruct (debug (client w)); reflexivity|].
  apply Forall_app. split; assumption.
Qed.

Lemma lines_follow_calls_quiet m p w evs :
  attempt_view evs = [] -> log_lines evs = [] -> lines_follow_calls m p w evs.
Proof.
  unfold lines_follow_calls. intros -> ->. split; [destruct (debug _); reflexivity|].
  constructor.
Qed.

Section Lines.

Variable D : JsVal -> option Z.

Lemma dispatch_lines m p b a w :
  lines_follow_calls m p w (events (dispatch D m p b a w)).
Proof.
  rewrite dispatch_run. cbv zeta.
  destruct (backoff_events D a w) as (evs & Ha & Eb).
  destruct (auth_only_views evs Ha) as (V & _ & _ & _ & L).
  assert (Vb : count_dispatch (attempt_view (events (backoff D a w))) = 0%nat).
  { rewrite Eb, attempt_view_app, V, app_nil_r. destruct (0 <? a); reflexivity. }
  assert (Lb : log_lines (events (backoff D a w)) = []).
  { rewrite Eb, log_lines_app, L. destruct (0 <? a); reflexivity. }
  assert (Q : lines_follow_calls m p w (events (backoff D a w))).
  { unfold lines_follow_calls. rewrite Lb, Vb. split; [destruct (debug _); reflexivity|].
    constructor. }
  pose proof (sound_config _ _ (sound_backoff D a w)) as C.
  destruct (outcome (backoff D a w)); cbn [events]; auto.
  set (wb := final (backoff D a w)) in *.
  assert (Hd : debug (client wb) = debug (client w)) by apply C.
  destruct (rawFetch_events (api_request (client wb) m p b) wb) as (res & Er & _).
  remember (HttpClient.rawFetch (api_request (client wb) m p b) wb) as rf eqn:Erf.
  unfold after. cbn [events]. rewrite <- app_assoc.
  apply (lines_follow_calls_app m p w wb); [exact Hd | exact Q|].
  rewrite Er. unfold lines_follow_calls.
  rewrite log_lines_app, attempt_view_app, count_dispatch_app.
  destruct (debug (client wb)); simpl; split; auto.
  constructor; [split; reflexivity | constructor].
Qed.

Lemma request_loop_lines k :
  forall m p b a le w,
    lines_follow_calls m p w (events (HttpClient.request_loop D k m p b a le w)).
Proof.
  induction k as [|k IH]; intros m p b a le w.
  - destruct le; apply lines_follow_calls_quiet; reflexivity.
  - rewrite request_loop_step, bind_run.
    pose proof (dispatch_lines m p b a w) as Ld.
    pose proof (sound_config _ _ (sound_dispatch D m p b a w)) as C.
    destruct (outcome (dispatch D m p b a w)) as [r| t |]; cbn [events]; auto.
    unfold after. cbn [events].
    set (w1 := final (dispatch D m p b a w)) in *.
    assert (Hd : debug (client w1) = debug (client w)) by apply C.
    unfold settle. destruct (ok r).
    + apply (lines_follow_calls_app m p w w1); [exact Hd | exact Ld|].
      unfold json. destruct (resp_json r); apply lines_follow_calls_quiet; reflexivity.
    + destruct (_ && _).
      * apply (lines_follow_calls_app m p w (with_token_cleared w1));
          [exact Hd | exact Ld | apply IH].
      * destruct (_ && _).
        -- apply (lines_follow_calls_app m p w w1); [exact Hd | exact Ld | apply IH].
        -- apply (lines_follow_calls_app m p w w1); [exact Hd | exact Ld|].
           apply lines_follow_calls_quiet; reflexivity.
Qed.

Lemma request_lines m p b w :
  lines_follow_calls m p w (events (HttpClient.request D m p b w)).
Proof.
  unfold HttpClient.request. rewrite bind_run.
  destruct (auth_only_views _ (ensureAuth_events D w)) as (V & _ & _ & _ & L).
  pose proof (sound_config _ _ (sound_ensureAuth D w)) as C.
  remember (HttpClient.ensureAuth D w) as ra eqn:Era.
  destruct (outcome ra); unfold after; cbn [events];
    try (apply lines_follow_calls_quiet; assumption).
  apply (lines_follow_calls_app m p w (final ra));
    [apply C | apply lines_follow_calls_quiet; assumption|].
  rewrite bind_run. cbn [get_client outcome final events]. rewrite after_nil.
  apply request_loop_lines.
Qed.

End Lines.

(** C9 (what the code does).  [authenticate] writes no diagnostic line,
    with [debug] on or off: its [log] call stands after the [return].
    [request] writes, with [debug] on, one line per dispatched call, made
    of the time, the method and the path, and nothing with [debug] off.  A
    first request on a fresh client with [debug] on authenticates,
    succeeds and leaves the line of the request only, nothing about the
    authentication. *)
Theorem authenticate_writes_no_line :
  (forall (D : JsVal -> option Z) (w : World),
      log_lines (events (HttpClient.authenticate D w)) = [])
  /\ (forall (D : JsVal -> option Z) (method path : string) (reqBody : JsVal)
             (w : World),
        lines_follow_calls method path w
          (events (HttpClient.request D method path reqBody w)))
  /\ debug Examples.fresh = true
  /\ outcome Examples.debug_run = Return (JStr "ok")
  /\ List.length (auth_calls (events Examples.debug_run)) = 1%nat
  /\ HttpClient.isTokenValid (final Examples.debug_run) = true
  /\ log_lines (events Examples.debug_run) = [(1010, "GET /x", None)].
Proof.
  split; [|split].
  - intros D w. destruct (authenticate_events D w) as [res ->]. reflexivity.
  - intros. apply request_lines.
  - vm_compute. auto 6.
Qed.


(* ================================================================== *)
(** * The statements at concrete runs *)
(* ================================================================== *)

Lemma request_backoff_schedule_witness :
  maxRetries (client Examples.retry_world) = 2
  /\ outcome Examples.retry_run = Return (JStr "body")
  /\ sleeps (events Examples.retry_run) = [1000; 2000].
Proof.
  split; [reflexivity|].
  destruct (request_backoff_schedule Examples.no_dates "GET" "/x" JUndefined
              Examples.retry_world) as (_ & _ & H).
  destruct (H (Examples.answer 500 (JObj [])) (Examples.answer 500 (JObj []))
              (Examples.answer 200 (JStr "body")) _ _ _ (JStr "body")
              eq_refl eq_refl eq_refl eq_refl eq_refl eq_refl eq_refl eq_refl eq_refl
              eq_refl eq_refl eq_refl)
    as (H1 & H2 & _).
  split; assumption.
Defined.


Lemma onStateChange_once_per_change_witness :
  (outcome (Examples.wait_run ["srccreated"; "completed"])
   = Return (Examples.txn_in "completed")
   /\ callbacks (events (Examples.wait_run ["srccreated"; "completed"]))
      = [JStr "srccreated"; JStr "completed"])
  /\ callbacks (events (Examples.wait_run ["quoted"; "srccreated"; "completed"]))
     = [JStr "quoted"; JStr "srccreated"; JStr "completed"].
Proof.
  split; [split; [reflexivity|]|].
  - destruct (onStateChange_once_per_change Examples.no_dates "abc"
                (Some Examples.with_callback)
                (Examples.polls ["srccreated"; "completed"])) as (_ & _ & _ & _ & H).
    apply H; reflexivity.
  - destruct (onStateChange_once_per_change Examples.no_dates "abc"
                (Some Examples.with_callback)
                (Examples.polls ["quoted"; "srccreated"; "completed"]))
      as (_ & _ & _ & H & _).
    apply H; reflexivity.
Defined.

(** C3, the claim as it stands: the polls see quoted, srccreated and
    completed, and the callback is called three times, first of all for
    quoted. *)
Lemma onStateChange_reports_first_state :
  outcome (Examples.wait_run ["quoted"; "srccreated"; "completed"])
  = Return (Examples.txn_in "completed")
  /\ observed_states (events (Examples.wait_run ["quoted"; "srccreated"; "completed"]))
     = [JStr "quoted"; JStr "srccreated"; JStr "completed"]
  /\ callbacks (events (Examples.wait_run ["quoted"; "srccreated"; "completed"]))
     = [JStr "quoted"; JStr "srccreated"; JStr "completed"]
  /\ List.length
       (callbacks (events (Examples.wait_run ["quoted"; "srccreated"; "completed"])))
     <> 2%nat.
Proof. vm_compute. repeat split. discriminate. Qed.

Lemma timeout_is_not_retried_witness :
  outcome Examples.slow_run = Throw (NeutronTimeoutError 30000)
  /\ sleeps (events Examples.slow_run) = [1000]
  /\ network (final Examples.slow_run) = [Examples.answer 200 (JStr "late")].
Proof.
  destruct (timeout_is_not_retried Examples.no_dates "GET" "/x" JUndefined
              Examples.slow_world) as (_ & H & _).
  specialize (H (firstn 4 (events Examples.slow_run))
                (nth 4 (events Examples.slow_run) (EvSleep 0)) []
                eq_refl eq_refl).
  destruct H as (_ & H & _).
  split; [exact H|]. split; reflexivity.
Defined.

Lemma waitForCompletion_returns_on_final_states_witness :
  (In "srcsent" Utils.TransactionStates
   /\ terminal (JStr "srcsent") = false
   /\ outcome (Examples.wait_run ["srcsent"; "expired"])
      = Return (Examples.txn_in "expired")
   /\ sleeps (events (Examples.wait_run ["srcsent"; "expired"])) = [3000])
  /\ (terminal (JStr "expired") = true
      /\ outcome (TransactionsResource.wait_loop Examples.no_dates 2 "abc" 3000
                    300000 true 1000 (JStr "") (Examples.polls ["expired"]))
         = Return (Examples.txn_in "expired")).
Proof.
  destruct (waitForCompletion_returns_on_final_states Examples.no_dates "abc")
    as (_ & H & Hstep & _).
  split.
  - split; [simpl; tauto|]. split; [|split; reflexivity].
    rewrite (H "srcsent"); [reflexivity | simpl; tauto].
  - split; [reflexivity|].
    specialize (Hstep 1%nat 3000 300000 true 1000 (JStr "")
                  (Examples.polls ["expired"]) _ _ _ eq_refl eq_refl eq_refl).
    cbv zeta in Hstep. destruct Hstep as [Hterm _].
    rewrite (Hterm eq_refl). reflexivity.
Defined.

(** C5, the claim as it stands: "failed" is outside the five final
    states, and a poll that sees it ends the run at once. *)
Lemma waitForCompletion_returns_on_failed :
  ~ In "failed" Utils.FinalStates
  /\ outcome (Examples.wait_run ["failed"; "completed"])
     = Return (Examples.txn_in "failed")
  /\ sleeps (events (Examples.wait_run ["failed"; "completed"])) = []
  /\ network (final (Examples.wait_run ["failed"; "completed"]))
     = [Examples.answer 200 (Examples.txn_in "completed")].
Proof.
  split.
  - simpl. intros H. repeat (destruct H as [H | H]; [discriminate|]). exact H.
  - vm_compute. auto.
Qed.

Lemma ensureAuth_noop_when_valid_witness :
  HttpClient.isTokenValid (final (Examples.first_ensureAuth 10000000 20000000)) = true
  /\ List.length
       (auth_calls (events (Examples.first_ensureAuth 10000000 20000000)
                    ++ events (Examples.second_ensureAuth 10000000 20000000)))
     = 1%nat
  /\ events (Examples.second_ensureAuth 10000000 20000000) = []
  /\ HttpClient.ensureAuth Examples.no_dates
       (final (Examples.second_ensureAuth 10000000 20000000))
     = {| outcome := Return tt;
          final := final (Examples.second_ensureAuth 10000000 20000000);
          events := [] |}.
Proof.
  destruct (ensureAuth_noop_when_valid Examples.no_dates
              (Examples.world Examples.fresh
                 [Examples.answer 200 (Examples.session 10000000);
                  Examples.answer 200 (Examples.session 20000000)]))
    as (_ & H2 & H3).
  destruct (H3 (Examples.answer 200 (Examples.session 10000000))
               [Examples.answer 200 (Examples.session 20000000)] _
               (Examples.session 10000000) 10000000
               eq_refl eq_refl eq_refl eq_refl eq_refl eq_refl eq_refl eq_refl eq_refl
               eq_refl) as [Hv Hc].
  destruct (H2 Hv) as [E _].
  fold (Examples.first_ensureAuth 10000000 20000000) in Hv, Hc, E.
  fold (Examples.second_ensureAuth 10000000 20000000) in Hc, E.
  split; [exact Hv|]. split; [exact Hc|]. split; [rewrite E; reflexivity|].
  destruct (ensureAuth_noop_when_valid Examples.no_dates
              (final (Examples.second_ensureAuth 10000000 20000000))) as (H1 & _).
  apply H1. rewrite E. exact Hv.
Defined.

(** C6, the claim as it stands: the token endpoint hands out sessions
    that expire 30 s later, inside the refresh buffer, and two calls in a
    row both authenticate. *)
Lemma ensureAuth_twice_short_lived_token :
  outcome (Examples.first_ensureAuth 31000 31010) = Return tt
  /\ outcome (Examples.second_ensureAuth 31000 31010) = Return tt
  /\ List.length
       (auth_calls (events (Examples.first_ensureAuth 31000 31010)
                    ++ events (Examples.second_ensureAuth 31000 31010)))
     = 2%nat.
Proof. vm_compute. auto. Qed.

Lemma generateSignature_hmac_hex_witness :
  HttpClient.generateSignature Examples.fresh HttpClient.auth_payload
  = HttpClient.generateSignature Examples.signed_in HttpClient.auth_payload
  /\ HttpClient.stringToSign Examples.other_key HttpClient.auth_payload
     <> HttpClient.stringToSign Examples.fresh HttpClient.auth_payload
  /\ HttpClient.stringToSign Examples.fresh "{}"
     <> HttpClient.stringToSign Examples.fresh HttpClient.auth_payload.
Proof.
  split; [|split].
  - destruct (generateSignature_hmac_hex Examples.signed_in Examples.fresh
                HttpClient.auth_payload HttpClient.auth_payload)
      as (_ & _ & _ & H & _).
    apply H; reflexivity.
  - destruct (generateSignature_hmac_hex Examples.fresh Examples.other_key
                HttpClient.auth_payload HttpClient.auth_payload)
      as (_ & _ & _ & _ & H & _).
    apply H. discriminate.
  - destruct (generateSignature_hmac_hex Examples.fresh Examples.fresh
                HttpClient.auth_payload "{}")
      as (_ & _ & _ & _ & _ & H).
    apply H. discriminate.
Defined.

(** C7, the claim as it stands: a secret and the same secret followed by
    a NUL byte are different inputs with the same signature, HMAC padding
    its key with zeros. *)
Lemma generateSignature_secret_collision :
  apiSecret Examples.padded_secret <> apiSecret Examples.fresh
  /\ apiKey Examples.padded_secret = apiKey Examples.fresh
  /\ HttpClient.generateSignature Examples.padded_secret HttpClient.auth_payload
     = HttpClient.generateSignature Examples.fresh HttpClient.auth_payload.
Proof.
  split; [discriminate|]. split; [reflexivity|]. vm_compute. reflexivity.
Qed.



(* ================================================================== *)
(** * The constructor and the base URL *)
(* ================================================================== *)

Lemma drop_slashes_spec cs :
  exists n, cs = (repeat "/"%char n ++ HttpClient.drop_slashes cs)%list
            /\ hd "a"%char (HttpClient.drop_slashes cs) <> "/"%char.
Proof.
  induction cs as [|c rest IH]; simpl.
  - exists 0%nat. split; [reflexivity | discriminate].
  - destruct (Ascii.eqb c "/") eqn:E.
    + apply Ascii.eqb_eq in E. subst c.
      destruct IH as (n & H1 & H2). exists (S n). split; [simpl; congruence | exact H2].
    + exists 0%nat. split; [reflexivity|]. simpl. intro H. subst c. discriminate.
Qed.

Lemma string_of_list_ascii_app l1 l2 :
  string_of_list_ascii (l1 ++ l2) = string_of_list_ascii l1 ++ string_of_list_ascii l2.
Proof. induction l1; simpl; congruence. Qed.

Lemma slashes_repeat n : string_of_list_ascii (repeat "/"%char n) = slashes n.
Proof. induction n; simpl; congruence. Qed.

Lemma ends_with_slash_snoc l c :
  ends_with_slash (string_of_list_ascii (l ++ [c])) = Ascii.eqb c "/".
Proof.
  induction l as [|x l IH]; simpl; [reflexivity|].
  rewrite IH. destruct (string_of_list_ascii (l ++ [c])) eqn:E; [|reflexivity].
  destruct l; discriminate.
Qed.

Lemma ends_with_slash_rev l :
  hd "a"%char l <> "/"%char -> ends_with_slash (string_of_list_ascii (rev l)) = false.
Proof.
  destruct l as [|c l]; simpl; intro H; [reflexivity|].
  rewrite ends_with_slash_snoc. apply Ascii.eqb_neq. exact H.
Qed.

Lemma rev_repeat {A} (x : A) n : rev (repeat x n) = repeat x n.
Proof.
  induction n; simpl; [reflexivity|]. rewrite IHn.
  clear. induction n; simpl; congruence.
Qed.

Lemma strip_trailing_slashes_spec s :
  ends_with_slash (HttpClient.strip_trailing_slashes s) = false
  /\ exists n, s = HttpClient.strip_trailing_slashes s ++ slashes n.
Proof.
  unfold HttpClient.strip_trailing_slashes.
  destruct (drop_slashes_spec (rev (list_ascii_of_string s))) as (n & H1 & H2).
  split; [apply ends_with_slash_rev; exact H2|].
  exists n. rewrite <- slashes_repeat, <- string_of_list_ascii_app.
  rewrite <- (rev_repeat "/"%char n), <- rev_app_distr, <- H1, rev_involutive.
  symmetry. apply string_of_list_ascii_of_string.
Qed.

Lemma drop_slashes_fixed cs :
  hd "a"%char cs <> "/"%char -> HttpClient.drop_slashes cs = cs.
Proof.
  destruct cs as [|c rest]; simpl; intro H; [reflexivity|].
  destruct (Ascii.eqb c "/") eqn:E; [|reflexivity].
  apply Ascii.eqb_eq in E. contradiction.
Qed.

(** X1. [baseUrl] normalisation, [replace(/\/+$/, "")]: the result is the
    argument with its trailing slashes, and nothing else, removed; it
    never ends in a slash, and normalising twice changes nothing. *)
Theorem strip_trailing_slashes_removes_exactly_the_tail (s : string) :
  let stripped := HttpClient.strip_trailing_slashes s in
  ends_with_slash stripped = false
  /\ (exists n, s = stripped ++ slashes n)
  /\ HttpClient.strip_trailing_slashes stripped = stripped.
Proof.
  cbv zeta. destruct (strip_trailing_slashes_spec s) as (H1 & H2).
  split; [exact H1|]. split; [exact H2|].
  unfold HttpClient.strip_trailing_slashes.
  destruct (drop_slashes_spec (rev (list_ascii_of_string s))) as (n & _ & Hd).
  rewrite list_ascii_of_string_of_list_ascii, rev_involutive.
  rewrite (drop_slashes_fixed _ Hd). reflexivity.
Qed.

(** X2. The constructor refuses a configuration exactly when its key or
    its secret is empty, with a [NeutronAuthError]; the client it builds
    otherwise keeps both, has a base URL without trailing slash, and
    holds no valid token at any time, whatever the clock says: its first
    request has to authenticate. *)
Theorem constructor_builds_signed_out_client (config : HttpClient.NeutronConfig) :
  match HttpClient.constructor config with
  | Return c =>
      HttpClient.cfg_apiKey config <> "" /\ HttpClient.cfg_apiSecret config <> ""
      /\ apiKey c = HttpClient.cfg_apiKey config
      /\ apiSecret c = HttpClient.cfg_apiSecret config
      /\ ends_with_slash (baseUrl c) = false
      /\ (forall t net,
            HttpClient.isTokenValid {| client := c; now := t; network := net |}
            = false)
  | Throw t =>
      (HttpClient.cfg_apiKey config = "" \/ HttpClient.cfg_apiSecret config = "")
      /\ exists msg, t = NeutronAuthError msg
  | OutOfFuel => False
  end.
Proof.
  unfold HttpClient.constructor.
  destruct (String.eqb (HttpClient.cfg_apiKey config) "") eqn:Ek.
  - apply String.eqb_eq in Ek. split; [left; exact Ek | eexists; reflexivity].
  - destruct (String.eqb (HttpClient.cfg_apiSecret config) "") eqn:Es.
    + apply String.eqb_eq in Es. split; [right; exact Es | eexists; reflexivity].
    + apply String.eqb_neq in Ek, Es.
      repeat split; try assumption.
      cbn [baseUrl]. apply strip_trailing_slashes_spec.
Qed.

(* ================================================================== *)
(** * Path parameters *)
(* ================================================================== *)

Lemma filter_string_length keep s :
  (String.length (filter_string keep s) <= String.length s)%nat.
Proof.
  induction s as [|c s IH]; simpl; [lia|].
  destruct (keep c); simpl; lia.
Qed.

Lemma filter_string_fixed s :
  filter_string allowed_char s = s <-> all_allowed s = true.
Proof.
  induction s as [|c s IH]; simpl; [tauto|].
  destruct (allowed_char c) eqn:E; simpl.
  - rewrite <- IH. split; [intro H; injection H; auto | intro H; rewrite H; reflexivity].
  - split; [|discriminate]. intro H.
    pose proof (filter_string_length allowed_char s) as L.
    rewrite H in L. simpl in L. lia.
Qed.

Lemma all_allowed_forallb s :
  all_allowed s = forallb allowed_char (list_ascii_of_string s).
Proof. induction s; simpl; congruence. Qed.

Lemma sanitizePathParam_cases value name w :
  sanitizePathParam value name w
  = {| outcome := outcome (sanitizePathParam value name w); final := w; events := [] |}
  /\ (if path_safe value
      then outcome (sanitizePathParam value name w) = Return value
      else exists msg,
          outcome (sanitizePathParam value name w) = Throw (NeutronValidationError msg)).
Proof.
  unfold sanitizePathParam, path_safe.
  destruct (String.eqb value "") eqn:E0; cbn [negb andb].
  - split; [reflexivity | eexists; reflexivity].
  - destruct (String.eqb (filter_string allowed_char value) value) eqn:E1; cbn [negb].
    + apply String.eqb_eq in E1. rewrite E1.
      apply filter_string_fixed in E1. rewrite E1. cbn [andb].
      destruct (includes_dotdot value); cbn [negb];
        (split; [reflexivity | try (eexists; reflexivity); reflexivity]).
    + assert (all_allowed value = false) as Hn.
      { destruct (all_allowed value) eqn:Ea; [|reflexivity].
        apply filter_string_fixed in Ea. rewrite Ea, String.eqb_refl in E1.
        discriminate. }
      rewrite Hn. cbn [andb].
      split; [reflexivity | eexists; reflexivity].
Qed.


Lemma is_hex_allowed c :
  TransactionsResource.is_hex c = true ->
  allowed_char c = true /\ Ascii.eqb c "." = false.
Proof.
  destruct c as [[] [] [] [] [] [] [] []]; vm_compute; intuition congruence.
Qed.

(** A list of characters all allowed and none of them a dot. *)
Lemma dotless_safe cs :
  Forall (fun c => allowed_char c = true /\ Ascii.eqb c "." = false) cs ->
  all_allowed (string_of_list_ascii cs) = true
  /\ includes_dotdot (string_of_list_ascii cs) = false.
Proof.
  induction 1 as [|c cs (Ha & Hd) _ (IH1 & IH2)]; simpl; [auto|].
  rewrite Ha, IH1. split; [reflexivity|].
  destruct c as [b0 b1 b2 b3 b4 b5 b6 b7].
  destruct b0, b1, b2, b3, b4, b5, b6, b7; try exact IH2; discriminate Hd.
Qed.

Lemma hex_group_dotless n g :
  hex_group n g ->
  Forall (fun c => allowed_char c = true /\ Ascii.eqb c "." = false) g.
Proof.
  intros (_ & H). eapply Forall_impl; [|exact H].
  intros c Hc. apply is_hex_allowed, is_hex_spec. exact Hc.
Qed.

Lemma canonical_uuid_safe s : canonical_uuid s -> path_safe s = true.
Proof.
  intros (g1 & g2 & g3 & g4 & g5 & E & H1 & H2 & H3 & H4 & H5).
  assert (Forall (fun c => allowed_char c = true /\ Ascii.eqb c "." = false)
            (list_ascii_of_string s)) as F.
  { rewrite E.
    repeat (apply Forall_app; split; [eapply hex_group_dotless; eassumption|];
            apply Forall_cons; [split; reflexivity|]).
    eapply hex_group_dotless; eassumption. }
  apply dotless_safe in F. rewrite string_of_list_ascii_of_string in F.
  destruct F as (Fa & Fd). unfold path_safe. rewrite Fa, Fd.
  destruct s; [|reflexivity].
  destruct H1 as (L & _). destruct g1; discriminate.
Qed.

(** X4. The identifiers [subscribe] accepts are all accepted by
    [sanitizePathParam]: a string that matches the UUID pattern passes
    the path check unchanged, so an identifier good for [subscribe] is
    good for [get] and [confirm]. *)
Theorem uuid_passes_sanitizePathParam (s name : string) (w : World) :
  TransactionsResource.UUID_RE_test s = true ->
  sanitizePathParam s name w = {| outcome := Return s; final := w; events := [] |}.
Proof.
  intro H. apply UUID_RE_test_spec, canonical_uuid_safe in H.
  destruct (sanitizePathParam_cases s name w) as (H1 & H2).
  rewrite H in H2. rewrite H1, H2. reflexivity.
Qed.

Lemma uuid_passes_sanitizePathParam_witness :
  TransactionsResource.UUID_RE_test Examples.uuid = true
  /\ sanitizePathParam Examples.uuid "txnId" (Examples.world Examples.fresh [])
     = {| outcome := Return Examples.uuid;
          final := Examples.world Examples.fresh []; events := [] |}.
Proof.
  split; [reflexivity|].
  apply (uuid_passes_sanitizePathParam Examples.uuid "txnId"). reflexivity.
Defined.

(* ================================================================== *)
(** * How [authenticate] and [request] fail *)
(* ================================================================== *)

Lemma throws_bind {A B} (P : Thrown -> Prop) (m : M A) (k : A -> M B) w :
  throws_only P (m w) ->
  (forall a, outcome (m w) = Return a -> throws_only P (k a (final (m w)))) ->
  throws_only P (bind m k w).
Proof.
  intros Hm Hk t. rewrite bind_run.
  destruct (outcome (m w)) as [a|t'|] eqn:E; cbn [outcome after].
  - apply (Hk a eq_refl).
  - intro H. injection H as <-. apply Hm. exact E.
  - discriminate.
Qed.

Lemma rawFetch_throws req w :
  throws_only (connection_failure (timeout (client w))) (HttpClient.rawFetch req w).
Proof.
  intros t. rewrite rawFetch_run.
  destruct (network w) as [|x rest]; cbn [outcome].
  - intro H. injection H as <-. simpl. discriminate.
  - destruct (settles x) as [r|name]; [discriminate|].
    destruct (String.eqb name "AbortError") eqn:E; intro H; injection H as <-; simpl.
    + reflexivity.
    + apply String.eqb_neq. exact E.
Qed.

(** [authenticate] in closed form: what it throws, and what it leaves. *)
Lemma authenticate_outcome D w :
  match outcome (HttpClient.authenticate D w) with
  | Return result =>
      exists x rest r raw,
        network w = (x :: rest)%list /\ settles x = Responded r /\ ok r = true
        /\ resp_json r = Some raw /\ nullish raw = false
        /\ result = js_nullish (opt_prop raw "data") raw
  | Throw t =>
      client (final (HttpClient.authenticate D w)) = client w
      /\ connection_failure (timeout (client w)) t
  | OutOfFuel => False
  end.
Proof.
  unfold HttpClient.authenticate.
  rewrite bind_run. cbn [get_client outcome final events]. rewrite after_nil.
  rewrite bind_run.
  pose proof (rawFetch_throws (auth_request (client w)) w) as Ht.
  unfold auth_request in Ht. revert Ht.
  rewrite rawFetch_run.
  destruct (network w) as [|x rest] eqn:En; cbn [outcome final events client].
  - intro Ht. split; [reflexivity | apply Ht; reflexivity].
  - destruct (settles x) as [r|name] eqn:Es; cbn [outcome final events client after].
    + intros _. destruct (ok r) eqn:Hok; cbn [negb].
      * unfold json. destruct (resp_json r) as [raw|] eqn:J.
        -- rewrite bind_run. cbn [ret outcome final events]. rewrite after_nil.
           rewrite bind_run, prop_run.
           destruct (nullish raw) eqn:Hn; cbn [outcome final events client].
           ++ split; reflexivity.
           ++ rewrite after_nil.
              rewrite bind_run. cbn [get_client outcome final events]. rewrite after_nil.
              rewrite bind_run. cbn [set_client ret after outcome final events].
              exists x, rest, r, raw. repeat split; try assumption; reflexivity.
        -- rewrite bind_run. cbn [throw outcome final events client].
           split; reflexivity.
      * rewrite bind_run, prop_run.
        destruct (nullish (json_or_empty r)); simpl; split; reflexivity.
    + intro Ht. destruct (String.eqb name "AbortError");
        (split; [reflexivity | apply Ht; reflexivity]).
Qed.

(** X5. A failed [authenticate] leaves the session as it was: whenever
    the call does not return (the token endpoint refuses, the call times
    out or is rejected, the body cannot be read), the client holds the
    token, the account and the expiry it held before; the session is
    replaced only by a call that returns, and then by what the answer
    says. *)
Theorem authenticate_failure_keeps_session (D : JsVal -> option Z) (w : World) :
  match outcome (HttpClient.authenticate D w) with
  | Return result =>
      accountId (client (final (HttpClient.authenticate D w)))
      = opt_prop result "accountId"
      /\ accessToken (client (final (HttpClient.authenticate D w)))
         = opt_prop result "accessToken"
  | _ => client (final (HttpClient.authenticate D w)) = client w
  end.
Proof.
  pose proof (authenticate_outcome D w) as H.
  destruct (outcome (HttpClient.authenticate D w)) as [result|t|] eqn:E.
  - destruct H as (x & rest & r & raw & En & Es & Hok & J & Hn & ->).
    destruct (authenticate_session D w x rest r raw En Es Hok J Hn)
      as (_ & Ha & Hb & _).
    split; assumption.
  - apply H.
  - contradiction.
Qed.

Section Failures.

Variable D : JsVal -> option Z.

Lemma authenticate_throws w :
  throws_only (connection_failure (timeout (client w))) (HttpClient.authenticate D w).
Proof.
  intros t E. pose proof (authenticate_outcome D w) as H.
  rewrite E in H. apply H.
Qed.

Lemma ensureAuth_throws w :
  throws_only (connection_failure (timeout (client w))) (HttpClient.ensureAuth D w).
Proof.
  rewrite ensureAuth_run. destruct (HttpClient.isTokenValid w).
  - intros t. discriminate.
  - apply throws_bind; [apply authenticate_throws|].
    intros a _ t. discriminate.
Qed.

Lemma backoff_throws a w :
  throws_only (connection_failure (timeout (client w))) (backoff D a w).
Proof.
  rewrite backoff_run. destruct (0 <? a).
  - intros t. unfold after. cbn [outcome]. apply (ensureAuth_throws (slept _ w)).
  - intros t. discriminate.
Qed.

Lemma timeout_kept {A} w (r : Run A) :
  sound w r -> timeout (client (final r)) = timeout (client w).
Proof. intro S. destruct (sound_config _ _ S) as (_ & _ & _ & H & _). exact H. Qed.

Lemma maxRetries_kept {A} w (r : Run A) :
  sound w r -> maxRetries (client (final r)) = maxRetries (client w).
Proof. intro S. destruct (sound_config _ _ S) as (_ & _ & _ & _ & H & _). exact H. Qed.

Lemma dispatch_throws m p b a w :
  throws_only (connection_failure (timeout (client w))) (dispatch D m p b a w).
Proof.
  intros t. rewrite dispatch_run. cbv zeta.
  pose proof (backoff_throws a w) as Hb.
  pose proof (timeout_kept _ _ (sound_backoff D a w)) as Ht.
  destruct (outcome (backoff D a w)) as [u|t'|] eqn:Eo; cbn [outcome after].
  - rewrite <- Ht. apply rawFetch_throws.
  - intro H. injection H as <-. apply Hb. exact Eo.
  - discriminate.
Qed.

(** When [dispatch] returns an answer, the call that got it is the last
    event. *)
Lemma dispatch_returns m p b a w r :
  outcome (dispatch D m p b a w) = Return r ->
  exists pre req,
    events (dispatch D m p b a w)
    = (pre ++ [EvFetch req (timeout (client w)) (Responded r)])%list
    /\ is_api_call req = true.
Proof.
  rewrite dispatch_run. cbv zeta.
  pose proof (timeout_kept _ _ (sound_backoff D a w)) as Ht.
  destruct (outcome (backoff D a w)) as [u|t'|]; cbn [outcome after events];
    [|discriminate|discriminate].
  intro E.
  destruct (rawFetch_events
              (api_request (client (final (backoff D a w))) m p b)
              (final (backoff D a w))) as (res & Ee & Hr).
  rewrite Ee, (Hr r E), Ht.
  eexists. eexists. split; [reflexivity|]. apply is_api_call_api_request.
Qed.

(** The retry loop with at least as many passes left as the guard of the
    [for] allows: an [ApiError] is made of the last answer, [undefined]
    is never thrown, anything else is a connection failure. *)
Lemma request_loop_failure k :
  forall m p b a le w t,
    maxRetries (client w) + 1 - a <= Z.of_nat (S k) ->
    outcome (HttpClient.request_loop D (S k) m p b a le w) = Throw t ->
    match t with
    | ApiError e =>
        made_of_last_answer (timeout (client w))
          (events (HttpClient.request_loop D (S k) m p b a le w)) e
    | _ => connection_failure (timeout (client w)) t
    end.
Proof.
  induction k as [|k IH]; intros m p b a le w t Hk;
    rewrite request_loop_step, bind_run;
    pose proof (dispatch_throws m p b a w) as Hd;
    pose proof (dispatch_returns m p b a w) as Hr;
    pose proof (sound_dispatch D m p b a w) as Sd;
    pose proof (timeout_kept _ _ Sd) as Ht;
    pose proof (maxRetries_kept _ _ Sd) as Hm;
    destruct (outcome (dispatch D m p b a w)) as [r|t'|] eqn:Eo;
    cbn [outcome after events];
    try discriminate;
    try (intro E; injection E as <-; specialize (Hd _ Eo);
         destruct t'; solve [exact Hd | contradiction]).
  - (* the last pass *)
    destruct (Hr r eq_refl) as (pre & req & Ee & Hq).
    unfold settle. destruct (ok r) eqn:Hok.
    { unfold json. destruct (resp_json r); cbn [ret throw outcome];
        [discriminate | intro E; injection E as <-; exact I]. }
    rewrite Hm.
    replace (a <? maxRetries (client w)) with false
      by (symmetry; apply Z.ltb_ge; lia).
    rewrite !andb_false_r. cbn [throw outcome events].
    intro E. injection E as <-.
    exists pre, req, r. rewrite app_nil_r. repeat split; assumption.
  - (* a pass with more to come *)
    destruct (Hr r eq_refl) as (pre & req & Ee & Hq).
    unfold settle. destruct (ok r) eqn:Hok.
    { unfold json. destruct (resp_json r); cbn [ret throw outcome];
        [discriminate | intro E; injection E as <-; exact I]. }
    rewrite Hm.
    destruct (a <? maxRetries (client w)) eqn:Ha.
    + apply Z.ltb_lt in Ha.
      assert (forall w', client w' = client (final (dispatch D m p b a w))
                         \/ w' = with_token_cleared (final (dispatch D m p b a w)) ->
                forall le',
                outcome (HttpClient.request_loop D (S k) m p b (a + 1) le' w') = Throw t ->
                match t with
                | ApiError e =>
                    made_of_last_answer (timeout (client w))
                      (events (dispatch D m p b a w)
                       ++ events (HttpClient.request_loop D (S k) m p b (a + 1) le' w'))
                      e
                | _ => connection_failure (timeout (client w)) t
                end) as Rec.
      { intros w' Hw' le' E.
        assert (timeout (client w') = timeout (client w)) as Ht'
          by (destruct Hw' as [->| ->]; exact Ht).
        assert (maxRetries (client w') = maxRetries (client w)) as Hm'
          by (destruct Hw' as [->| ->]; exact Hm).
        specialize (IH m p b (a + 1) le' w' t).
        rewrite Ht', Hm' in IH.
        assert (maxRetries (client w) + 1 - (a + 1) <= Z.of_nat (S k)) as Hk' by lia.
        specialize (IH Hk' E).
        destruct t; try exact IH.
        destruct IH as (pre' & req' & r' & Ee' & Hq' & Hok' & ->).
        exists (events (dispatch D m p b a w) ++ pre')%list, req', r'.
        rewrite Ee', app_assoc. repeat split; assumption. }
      rewrite andb_true_r.
      destruct (resp_status r =? 401).
      * apply Rec. right. reflexivity.
      * cbn [andb]. destruct (isRetryable _).
        -- apply Rec. left. reflexivity.
        -- cbn [throw outcome events]. intro E. injection E as <-.
           exists pre, req, r. rewrite app_nil_r. repeat split; assumption.
    + rewrite !andb_false_r. cbn [throw outcome events].
      intro E. injection E as <-.
      exists pre, req, r. rewrite app_nil_r. repeat split; assumption.
Qed.

End Failures.

Section RequestFailures.

Variable D : JsVal -> option Z.

Lemma request_run m p b w :
  HttpClient.request D m p b w
  = bind (HttpClient.ensureAuth D)
      (fun _ w1 =>
         HttpClient.request_loop D (Z.to_nat (maxRetries (client w1) + 1)) m p b 0 None
           w1) w.
Proof.
  unfold HttpClient.request. apply bind_ext. intros u w1.
  rewrite bind_run. cbn [get_client outcome final events]. apply after_nil.
Qed.

Lemma request_failure m p b w t :
  outcome (HttpClient.request D m p b w) = Throw t ->
  match t with
  | ApiError e =>
      made_of_last_answer (timeout (client w)) (events (HttpClient.request D m p b w)) e
  | ThrownUndefined => maxRetries (client w) < 0
  | _ => connection_failure (timeout (client w)) t
  end.
Proof.
  rewrite request_run, bind_run.
  pose proof (ensureAuth_throws D w) as He.
  pose proof (sound_ensureAuth D w) as Se.
  pose proof (timeout_kept _ _ Se) as Ht.
  pose proof (maxRetries_kept _ _ Se) as Hm.
  destruct (outcome (HttpClient.ensureAuth D w)) as [u|t'|] eqn:Eo;
    cbn [outcome after events]; [| |discriminate].
  - rewrite Hm.
    destruct (Z.to_nat (maxRetries (client w) + 1)) as [|k] eqn:Ek.
    + simpl. intro E. injection E as <-. lia.
    + intro E.
      pose proof (request_loop_failure D k m p b 0 None
                    (final (HttpClient.ensureAuth D w)) t) as H.
      rewrite Ht, Hm in H.
      assert (maxRetries (client w) + 1 - 0 <= Z.of_nat (S k)) as Hk by lia.
      specialize (H Hk E).
      destruct t; try exact H; try contradiction.
      destruct H as (pre & req & r & Ee & Hq & Hok & ->).
      exists (events (HttpClient.ensureAuth D w) ++ pre)%list, req, r.
      rewrite Ee, app_assoc. repeat split; assumption.
  - intro E. injection E as <-. specialize (He _ Eo).
    destruct t'; solve [exact He | contradiction].
Qed.

End RequestFailures.



(** X7. A client configured with a negative [maxRetries] never sends the
    request: the loop body is not entered, so once [ensureAuth] has
    returned, [request] throws the unassigned [lastError], that is
    [undefined], having dispatched nothing. *)
Theorem request_without_attempts (D : JsVal -> option Z) (m p : string) (b : JsVal)
        (w : World) :
  maxRetries (client w) < 0 ->
  attempt_view (events (HttpClient.request D m p b w)) = []
  /\ (outcome (HttpClient.ensureAuth D w) = Return tt ->
      outcome (HttpClient.request D m p b w) = Throw ThrownUndefined)
  /\ forall v, outcome (HttpClient.request D m p b w) <> Return v.
Proof.
  intro Hneg. rewrite request_run, bind_run.
  pose proof (sound_ensureAuth D w) as Se.
  pose proof (maxRetries_kept _ _ Se) as Hm.
  destruct (auth_only_views _ (ensureAuth_events D w)) as (Hv & _).
  destruct (outcome (HttpClient.ensureAuth D w)) as [u|t'|] eqn:Eo;
    cbn [outcome after events].
  - rewrite Hm.
    replace (Z.to_nat (maxRetries (client w) + 1)) with 0%nat by lia.
    simpl. rewrite app_nil_r. split; [exact Hv|]. split; [reflexivity | discriminate].
  - split; [exact Hv|]. split; discriminate.
  - split; [exact Hv|]. split; discriminate.
Qed.

Lemma request_without_attempts_witness :
  maxRetries (client Scenarios.no_attempts_world) < 0
  /\ events (HttpClient.request Examples.no_dates "GET" "/x" JUndefined
               Scenarios.no_attempts_world) = []
  /\ outcome (HttpClient.request Examples.no_dates "GET" "/x" JUndefined
                Scenarios.no_attempts_world) = Throw ThrownUndefined.
Proof.
  split; [reflexivity|].
  destruct (request_without_attempts Examples.no_dates "GET" "/x" JUndefined
              Scenarios.no_attempts_world) as (_ & H & _); [reflexivity|].
  split; [reflexivity|]. apply H. reflexivity.
Defined.

(* ================================================================== *)
(** * The calls a run of [request] makes *)
(* ================================================================== *)

Lemma calls_app l1 l2 : calls (l1 ++ l2) = (calls l1 ++ calls l2)%list.
Proof.
  induction l1 as [|e l1 IH]; simpl; [reflexivity|].
  destruct e; simpl; rewrite IH; reflexivity.
Qed.

Lemma auth_request_config c c' : same_config c c' -> auth_request c' = auth_request c.
Proof.
  intros (Hk & Hs & Hb & _). unfold auth_request, HttpClient.generateSignature,
    HttpClient.stringToSign. rewrite Hk, Hs, Hb. reflexivity.
Qed.

Lemma expected_call_config c c' m p b call :
  same_config c c' -> expected_call c' m p b call -> expected_call c m p b call.
Proof.
  intros S (Ht & H). pose proof (auth_request_config _ _ S) as Ea.
  destruct S as (_ & _ & Hb & Hto & _).
  split; [congruence|].
  destruct H as [H | (token & H)]; [left; congruence|].
  right. exists token. rewrite H. unfold bearer_request. rewrite Hb. reflexivity.
Qed.

Lemma expected_calls_config c c' m p b l :
  same_config c c' ->
  Forall (expected_call c' m p b) l -> Forall (expected_call c m p b) l.
Proof.
  intros S H. eapply Forall_impl; [|exact H].
  intros call. apply expected_call_config. exact S.
Qed.

Section Calls.

Variable D : JsVal -> option Z.

Lemma ensureAuth_trace w :
  events (HttpClient.ensureAuth D w) = []
  \/ (HttpClient.isTokenValid w = false
      /\ exists res, events (HttpClient.ensureAuth D w)
                     = [EvFetch (auth_request (client w)) (timeout (client w)) res]).
Proof.
  rewrite ensureAuth_run. destruct (HttpClient.isTokenValid w); [left; reflexivity|].
  right. split; [reflexivity|].
  destruct (authenticate_events D w) as (res & E). exists res.
  rewrite bind_run. destruct (outcome (HttpClient.authenticate D w));
    cbn [after events ret]; rewrite E; reflexivity.
Qed.

Lemma ensureAuth_calls m p b w :
  Forall (expected_call (client w) m p b) (calls (events (HttpClient.ensureAuth D w))).
Proof.
  destruct (ensureAuth_trace w) as [-> | (_ & res & ->)]; simpl; constructor;
    [|constructor].
  split; [reflexivity | left; reflexivity].
Qed.

Lemma dispatch_calls m p b a w :
  Forall (expected_call (client w) m p b) (calls (events (dispatch D m p b a w))).
Proof.
  assert (Forall (expected_call (client w) m p b) (calls (events (backoff D a w))))
    as Hb.
  { rewrite backoff_run. destruct (0 <? a); [|constructor].
    cbn [after events calls app]. apply (ensureAuth_calls m p b (slept _ w)). }
  rewrite dispatch_run. cbv zeta.
  pose proof (sound_config _ _ (sound_backoff D a w)) as S.
  destruct (outcome (backoff D a w)); cbn [events after]; try exact Hb.
  rewrite !calls_app. apply Forall_app.
  split; [apply Forall_app; split; [exact Hb | destruct (debug _); constructor]|].
  destruct (rawFetch_events
              (api_request (client (final (backoff D a w))) m p b)
              (final (backoff D a w))) as (res & -> & _).
  simpl. constructor; [|constructor].
  apply (expected_call_config _ _ _ _ _ _ S).
  split; [reflexivity|]. right. eexists. reflexivity.
Qed.

Lemma request_loop_calls k :
  forall m p b a le w,
    Forall (expected_call (client w) m p b)
      (calls (events (HttpClient.request_loop D k m p b a le w))).
Proof.
  induction k as [|k IH]; intros m p b a le w.
  - destruct le; constructor.
  - rewrite request_loop_step, bind_run.
    pose proof (dispatch_calls m p b a w) as Hd.
    pose proof (sound_config _ _ (sound_dispatch D m p b a w)) as S.
    destruct (outcome (dispatch D m p b a w)) as [r|t|]; cbn [events after];
      try exact Hd.
    rewrite calls_app. apply Forall_app. split; [exact Hd|].
    apply (expected_calls_config _ _ _ _ _ _ S).
    unfold settle. destruct (ok r).
    + unfold json. destruct (resp_json r); constructor.
    + destruct (_ && _); [apply (IH m p b (a + 1) _ (with_token_cleared _))|].
      destruct (_ && _); [apply IH | constructor].
Qed.

Lemma request_calls m p b w :
  Forall (expected_call (client w) m p b) (calls (events (HttpClient.request D m p b w))).
Proof.
  rewrite request_run, bind_run.
  pose proof (ensureAuth_calls m p b w) as He.
  pose proof (sound_config _ _ (sound_ensureAuth D w)) as S.
  destruct (outcome (HttpClient.ensureAuth D w)); cbn [events after]; try exact He.
  rewrite calls_app. apply Forall_app. split; [exact He|].
  apply (expected_calls_config _ _ _ _ _ _ S), request_loop_calls.
Qed.

End Calls.

(** X8. Every call a run of [request] makes is either the authentication
    call of the client (POST to the token endpoint, signed) or the
    request itself: the method asked for, the URL [baseUrl ++ path], the
    body asked for, under a bearer token; a retry sends the same request
    again and differs at most in the token.  All calls run under the
    configured timeout.  No other endpoint is contacted. *)
Theorem request_sends_only_the_request_and_sign_in
        (D : JsVal -> option Z) (m p : string) (b : JsVal) (w : World) :
  Forall (fun call : Request * Z =>
            snd call = timeout (client w)
            /\ (fst call = auth_request (client w)
                \/ (req_method (fst call) = m
                    /\ req_url (fst call) = baseUrl (client w) ++ p
                    /\ req_body (fst call) = (if truthy b then JsonBody b else NoBody)
                    /\ exists token,
                        fst call = bearer_request (client w) m p b token)))
         (calls (events (HttpClient.request D m p b w))).
Proof.
  eapply Forall_impl; [|apply request_calls].
  intros call (Ht & H). split; [exact Ht|].
  destruct H as [H | (token & H)]; [left; exact H|].
  right. rewrite H. repeat split. exists token. reflexivity.
Qed.

(** X9. A request made without a valid token starts by authenticating,
    and sends nothing else if that fails: the first event is the call to
    the token endpoint, and when [authenticate] throws, [request] throws
    the same error after that one call, the API never being contacted. *)
Theorem request_authenticates_first
        (D : JsVal -> option Z) (m p : string) (b : JsVal) (w : World) :
  HttpClient.isTokenValid w = false ->
  exists res,
    starts [EvFetch (auth_request (client w)) (timeout (client w)) res]
      (events (HttpClient.request D m p b w))
    /\ forall t,
        outcome (HttpClient.authenticate D w) = Throw t ->
        HttpClient.request D m p b w
        = {| outcome := Throw t; final := final (HttpClient.authenticate D w);
             events := [EvFetch (auth_request (client w)) (timeout (client w)) res] |}.
Proof.
  intro Hv. destruct (authenticate_events D w) as (res & Ee). exists res.
  rewrite request_run, bind_run, ensureAuth_run, Hv, bind_run.
  destruct (outcome (HttpClient.authenticate D w)) as [u|t'|];
    cbn [outcome final events after ret].
  - split; [|discriminate]. rewrite Ee. cbn [app].
    eexists. reflexivity.
  - rewrite Ee. split; [exists []; reflexivity|].
    intros t E. injection E as <-. reflexivity.
  - rewrite Ee. split; [exists []; reflexivity | discriminate].
Qed.

Lemma request_authenticates_first_witness :
  HttpClient.isTokenValid Scenarios.refused_world = false
  /\ outcome Scenarios.refused_run = Throw (NeutronAuthError (JStr "bad key"))
  /\ List.length (events Scenarios.refused_run) = 1%nat.
Proof.
  split; [reflexivity|].
  destruct (request_authenticates_first Examples.no_dates "GET" "/x" JUndefined
              Scenarios.refused_world) as (res & _ & H); [reflexivity|].
  unfold Scenarios.refused_run.
  rewrite (H (NeutronAuthError (JStr "bad key"))); [split; reflexivity|].
  vm_compute. reflexivity.
Defined.

(* ================================================================== *)
(** * Identifiers are checked before anything is sent *)
(* ================================================================== *)

Lemma sanitize_then {A} value name (k : M A) w :
  bind (sanitizePathParam value name) (fun _ => k) w
  = if path_safe value then k w
    else {| outcome :=
              match outcome (sanitizePathParam value name w) with
              | Throw t => Throw t
              | _ => OutOfFuel
              end;
            final := w; events := [] |}.
Proof.
  rewrite bind_run.
  destruct (sanitizePathParam_cases value name w) as (H1 & H2).
  rewrite H1. cbn [outcome final events].
  destruct (path_safe value).
  - rewrite H2. apply after_nil.
  - destruct H2 as (msg & ->). reflexivity.
Qed.

Lemma sanitize_refuses value name w :
  path_safe value = false ->
  exists msg,
    outcome (sanitizePathParam value name w) = Throw (NeutronValidationError msg).
Proof.
  intro H. destruct (sanitizePathParam_cases value name w) as (_ & H2).
  rewrite H in H2. exact H2.
Qed.

Lemma refused_events {A} value name (k : M A) w :
  path_safe value = false ->
  events (bind (sanitizePathParam value name) (fun _ => k) w) = [].
Proof. intro H. rewrite sanitize_then, H. reflexivity. Qed.

Lemma unwrap_data_throws P res w :
  P JsTypeError -> throws_only P (unwrap_data res w).
Proof.
  intros HP t. unfold unwrap_data. rewrite bind_run, prop_run.
  destruct (nullish res); cbn [outcome after ret].
  - intro E. injection E as <-. exact HP.
  - discriminate.
Qed.

Section PathCheck.

Variable D : JsVal -> option Z.

Lemma request_never_validation m p b w msg :
  outcome (HttpClient.request D m p b w) <> Throw (NeutronValidationError msg).
Proof. intro E. apply (request_failure D m p b w _ E). Qed.

Lemma checked_call_validation id name (k : M JsVal) w msg :
  (forall msg', outcome (k w) <> Throw (NeutronValidationError msg')) ->
  outcome (bind (sanitizePathParam id name) (fun _ => k) w)
  = Throw (NeutronValidationError msg) ->
  path_safe id = false.
Proof.
  intros Hk. rewrite sanitize_then.
  destruct (path_safe id); [|reflexivity].
  intro E. destruct (Hk _ E).
Qed.

Lemma institutions_call_never_validation path w msg :
  outcome (bind (HttpClient.get D path) unwrap_data w)
  <> Throw (NeutronValidationError msg).
Proof.
  intro E.
  refine (throws_bind (fun t => t <> NeutronValidationError msg)
            (HttpClient.get D path) unwrap_data w _ _ _ E eq_refl).
  - intros t Et ->.
    exact (request_never_validation "GET" path JUndefined w msg Et).
  - intros a _. apply unwrap_data_throws. discriminate.
Qed.

End PathCheck.

(** X10. An identifier that the path check refuses stops the operation
    before anything happens: [transactions.get], [transactions.confirm],
    [fiat.institutions] and (with a positive timeout)
    [transactions.waitForCompletion] throw the [NeutronValidationError]
    with no authentication, no request, no sleep, and leave the client as
    it was. *)
Theorem refused_identifier_sends_nothing
        (D : JsVal -> option Z) (id : string)
        (options : option TransactionsResource.WaitOptions) (w : World) :
  path_safe id = false ->
  exists msg msg',
    TransactionsResource.get D id w
    = {| outcome := Throw (NeutronValidationError msg); final := w; events := [] |}
    /\ TransactionsResource.confirm D id w
       = {| outcome := Throw (NeutronValidationError msg); final := w; events := [] |}
    /\ FiatResource.institutions D id w
       = {| outcome := Throw (NeutronValidationError msg'); final := w; events := [] |}
    /\ (0 < wait_timeout options ->
        TransactionsResource.waitForCompletion D id options w
        = {| outcome := Throw (NeutronValidationError msg); final := w;
             events := [] |}).
Proof.
  intro H.
  destruct (sanitize_refuses id "txnId" w H) as (msg & E).
  destruct (sanitize_refuses id "countryCode" w H) as (msg' & E').
  exists msg, msg'.
  assert (TransactionsResource.get D id w
          = {| outcome := Throw (NeutronValidationError msg); final := w;
               events := [] |}) as Hg.
  { unfold TransactionsResource.get. rewrite sanitize_then, H, E. reflexivity. }
  split; [exact Hg|]. split; [|split].
  - unfold TransactionsResource.confirm. rewrite sanitize_then, H, E. reflexivity.
  - unfold FiatResource.institutions. rewrite sanitize_then, H, E'. reflexivity.
  - intro Hpos. rewrite waitForCompletion_run, wait_loop_step.
    replace (now w - now w <? wait_timeout options) with true
      by (symmetry; apply Z.ltb_lt; lia).
    cbv zeta. rewrite Hg. reflexivity.
Qed.

Lemma refused_identifier_sends_nothing_witness :
  path_safe "../admin" = false
  /\ exists msg,
      TransactionsResource.get Examples.no_dates "../admin" Examples.retry_world
      = {| outcome := Throw (NeutronValidationError msg);
           final := Examples.retry_world; events := [] |}.
Proof.
  split; [reflexivity|].
  destruct (refused_identifier_sends_nothing Examples.no_dates "../admin" None
              Examples.retry_world) as (msg & _ & H & _); [reflexivity|].
  exists msg. exact H.
Defined.

(** X11. Conversely a [NeutronValidationError] out of
    [transactions.get], [transactions.confirm] or [fiat.institutions]
    always comes from the path check: the identifier was refused, and so
    (X10) nothing was sent.  The transport never produces one. *)
Theorem validation_error_comes_from_path_check
        (D : JsVal -> option Z) (id : string) (w : World) (msg : string) :
  outcome (TransactionsResource.get D id w) = Throw (NeutronValidationError msg)
  \/ outcome (TransactionsResource.confirm D id w)
     = Throw (NeutronValidationError msg)
  \/ outcome (FiatResource.institutions D id w)
     = Throw (NeutronValidationError msg) ->
  path_safe id = false
  /\ events (TransactionsResource.get D id w) = []
  /\ events (TransactionsResource.confirm D id w) = []
  /\ events (FiatResource.institutions D id w) = [].
Proof.
  intro H.
  assert (path_safe id = false) as Hp.
  { destruct H as [H | [H | H]].
    - unfold TransactionsResource.get in H.
      apply (checked_call_validation id "txnId"
               (HttpClient.get D ("/api/v2/transaction/" ++ id)) w msg);
        [|exact H].
      intros msg'.
      exact (request_never_validation D "GET" _ JUndefined w msg').
    - unfold TransactionsResource.confirm in H.
      apply (checked_call_validation id "txnId"
               (HttpClient.put D ("/api/v2/transaction/" ++ id ++ "/confirm")
                  JUndefined) w msg); [|exact H].
      intros msg'.
      exact (request_never_validation D "PUT" _ JUndefined w msg').
    - unfold FiatResource.institutions in H.
      apply (checked_call_validation id "countryCode"
               (bind (HttpClient.get D
                        ("/api/v2/reference/fiat-institution/by-country/" ++ id))
                     unwrap_data) w msg); [|exact H].
      intros msg'. apply institutions_call_never_validation. }
  split; [exact Hp|].
  split; [|split].
  - apply (refused_events id "txnId"
             (HttpClient.get D ("/api/v2/transaction/" ++ id)) w Hp).
  - apply (refused_events id "txnId"
             (HttpClient.put D ("/api/v2/transaction/" ++ id ++ "/confirm")
                JUndefined) w Hp).
  - apply (refused_events id "countryCode"
             (bind (HttpClient.get D
                      ("/api/v2/reference/fiat-institution/by-country/" ++ id))
                   unwrap_data) w Hp).
Qed.

Lemma validation_error_comes_from_path_check_witness :
  exists msg,
    outcome (FiatResource.institutions Examples.no_dates "V N" Examples.retry_world)
    = Throw (NeutronValidationError msg)
    /\ path_safe "V N" = false
    /\ events (FiatResource.institutions Examples.no_dates "V N" Examples.retry_world)
       = [].
Proof.
  eexists. split; [vm_compute; reflexivity|].
  destruct (validation_error_comes_from_path_check Examples.no_dates "V N"
              Examples.retry_world
              "countryCode contains invalid characters. Only alphanumeric, hyphens, underscores, and dots are allowed.")
    as (H1 & _ & _ & H2).
  - right. right. vm_compute. reflexivity.
  - split; assumption.
Defined.

(* ================================================================== *)
(** * When [waitForCompletion] gives up *)
(* ================================================================== *)

Section GivingUp.

Variable D : JsVal -> option Z.



End GivingUp.



(* ================================================================== *)
(** * [subscribe]: the answer to the streaming call *)
(* ================================================================== *)

(** X13. [subscribe] makes one streaming call and takes its answer as
    it comes, without retry and without the conversions of [request]:
    a 2xx answer with a body is handed on; any other answer gives the
    plain [Error] "SSE connection failed: <status> <statusText>"; a
    rejected call, the firing of the abort timer included, is passed on
    under its own name and not as a [NeutronTimeoutError]. *)
Theorem subscribe_takes_one_answer
        (D : JsVal -> option Z) (transactionId : string)
        (timeoutArg : option JsNumber) (w w1 : World)
        (hs : list (string * string)) (evs : list Event) (t : Z)
        (x : Exchange) (rest : list Exchange) :
  TransactionsResource.UUID_RE_test transactionId = true ->
  HttpClient.getAuthHeaders D w
  = {| outcome := Return hs; final := w1; events := evs |} ->
  effective_timeout (HttpClient.default timeoutArg (NInt 60000)) = Some t ->
  network w1 = (x :: rest)%list ->
  TransactionsResource.subscribe D transactionId timeoutArg w
  = {| outcome :=
         match settles x with
         | Responded r =>
             if ok r && resp_has_body r then Return r
             else Throw (JsError ("SSE connection failed: "
                                  ++ string_of_Z (resp_status r) ++ " "
                                  ++ resp_statusText r))
         | Rejected name => Throw (FetchRejection name)
         end;
       final := {| client := client w1; now := now w1 + elapsed x; network := rest |};
       events := (evs ++ [EvFetch (stream_request (client w) transactionId hs) t
                            (settles x)])%list |}.
Proof.
  intros Hu Ha Ht Hn.
  unfold TransactionsResource.subscribe. rewrite Hu. cbn [negb].
  rewrite bind_run. cbn [get_client outcome final events].
  rewrite after_nil, bind_run, Ha. cbn [outcome final events].
  rewrite bind_run, clamped_signal, Ht. cbn [ret outcome final events].
  rewrite after_nil, bind_run.
  fold (stream_request (client w) transactionId hs).
  unfold fetch. rewrite Hn. cbn [outcome final events].
  destruct (settles x) as [r|name]; unfold after; cbn [outcome final events].
  - destruct (ok r), (resp_has_body r); cbn [negb orb andb ret throw outcome final events];
      rewrite app_nil_r; reflexivity.
  - reflexivity.
Qed.

Lemma subscribe_takes_one_answer_witness :
  TransactionsResource.subscribe Examples.no_dates Examples.uuid None
    (Scenarios.stream_world Scenarios.bodyless)
  = {| outcome := Throw (JsError "SSE connection failed: 200 OK");
       final := {| client := Examples.signed_in; now := 1010; network := [] |};
       events := [EvFetch (stream_request Examples.signed_in Examples.uuid
                             [("Authorization", "Bearer tok")]) 60000
                    (settles Scenarios.bodyless)] |}.
Proof.
  apply (subscribe_takes_one_answer Examples.no_dates Examples.uuid None
           (Scenarios.stream_world Scenarios.bodyless)
           (Scenarios.stream_world Scenarios.bodyless)
           [("Authorization", "Bearer tok")] [] 60000 Scenarios.bodyless []);
    reflexivity.
Defined.

(* ================================================================== *)
(** * [subscribe]: the frames read off the stream *)
(* ================================================================== *)

Lemma append_empty_r s : s ++ "" = s.
Proof. induction s; simpl; congruence. Qed.

Lemma append_assoc3 (a b c : string) : (a ++ b) ++ c = a ++ b ++ c.
Proof. induction a; simpl; congruence. Qed.

Lemma split_lines_nonempty s : EventStream.split_lines s <> [].
Proof.
  destruct s as [|c s]; simpl; [discriminate|].
  destruct (Ascii.eqb c EventStream.newline); [discriminate|].
  destruct (EventStream.split_lines s); discriminate.
Qed.

Lemma split_lines_app a b :
  EventStream.split_lines (a ++ b)
  = (removelast (EventStream.split_lines a)
     ++ EventStream.split_lines (last (EventStream.split_lines a) "" ++ b))%list.
Proof.
  induction a as [|c a IH]; [reflexivity|].
  cbn [append EventStream.split_lines].
  pose proof (split_lines_nonempty a) as Hne.
  destruct (Ascii.eqb c EventStream.newline) eqn:Hc.
  - rewrite IH. destruct (EventStream.split_lines a) as [|seg more];
      [contradiction | reflexivity].
  - rewrite IH. destruct (EventStream.split_lines a) as [|seg more];
      [contradiction|].
    destruct more as [|m ms].
    + cbn [removelast last app append EventStream.split_lines].
      rewrite Hc. reflexivity.
    + cbn [removelast last app]. reflexivity.
Qed.

Lemma split_lines_one_line s :
  one_line s = true -> EventStream.split_lines s = [s].
Proof.
  induction s as [|c s IH]; [reflexivity|].
  cbn [one_line EventStream.split_lines]. intro H.
  apply andb_true_iff in H. destruct H as (Hc & Hs).
  apply negb_true_iff in Hc. rewrite Hc, (IH Hs). reflexivity.
Qed.

Lemma last_line_one_line s :
  one_line (last (EventStream.split_lines s) "") = true.
Proof.
  induction s as [|c s IH]; [reflexivity|].
  cbn [EventStream.split_lines].
  pose proof (split_lines_nonempty s) as Hne.
  destruct (Ascii.eqb c EventStream.newline) eqn:Hc.
  - destruct (EventStream.split_lines s); [contradiction | exact IH].
  - destruct (EventStream.split_lines s) as [|seg more]; [contradiction|].
    destruct more as [|m ms]; [|exact IH].
    cbn [last] in *. cbn [one_line]. rewrite Hc, IH. reflexivity.
Qed.

Lemma split_closed_line l rest :
  one_line l = true ->
  EventStream.split_lines (l ++ String EventStream.newline rest)
  = l :: EventStream.split_lines rest.
Proof.
  induction l as [|c l IH]; intro H.
  - cbn [append EventStream.split_lines]. rewrite Ascii.eqb_refl. reflexivity.
  - cbn [one_line] in H. apply andb_true_iff in H. destruct H as (Hc & Hl).
    apply negb_true_iff in Hc.
    cbn [append EventStream.split_lines]. rewrite Hc, (IH Hl). reflexivity.
Qed.

Lemma closed_lines_cons l lines :
  closed_lines (l :: lines) = l ++ String EventStream.newline (closed_lines lines).
Proof.
  unfold closed_lines, stream_text. cbn [map fold_right].
  rewrite append_assoc3. reflexivity.
Qed.

Lemma split_closed_lines lines tail :
  Forall (fun l => one_line l = true) lines -> one_line tail = true ->
  EventStream.split_lines (closed_lines lines ++ tail) = (lines ++ [tail])%list.
Proof.
  intros Hl Ht. induction Hl as [|l lines H _ IH].
  - apply split_lines_one_line. exact Ht.
  - rewrite closed_lines_cons, append_assoc3. cbn [append].
    rewrite (split_closed_line l _ H), IH. reflexivity.
Qed.

Section Frames.

Variable JSON_parse : string -> option JsVal.

Lemma read_loop_text chunks :
  forall buffer,
    one_line buffer = true ->
    EventStream.read_loop JSON_parse chunks buffer
    = flat_map (EventStream.frame JSON_parse)
        (removelast (EventStream.split_lines (buffer ++ stream_text chunks))).
Proof.
  induction chunks as [|value rest IH]; intros buffer Hb.
  - cbn [EventStream.read_loop stream_text fold_right].
    rewrite append_empty_r, (split_lines_one_line _ Hb). reflexivity.
  - cbn [EventStream.read_loop stream_text fold_right].
    rewrite (IH _ (last_line_one_line (buffer ++ value))).
    rewrite <- append_assoc3, (split_lines_app (buffer ++ value)).
    rewrite removelast_app by apply split_lines_nonempty.
    rewrite flat_map_app. reflexivity.
Qed.

Lemma read_stream_text chunks :
  EventStream.read_stream JSON_parse chunks
  = (flat_map (EventStream.frame JSON_parse)
       (removelast (EventStream.split_lines (stream_text chunks)))
     ++ [EventStream.ReaderCancelled])%list.
Proof.
  unfold EventStream.read_stream. rewrite read_loop_text; reflexivity.
Qed.

End Frames.

(** X14. What the frame loop of [subscribe] delivers depends on the
    text of the stream only, not on how the network cut it into chunks:
    the lines closed by a line feed are handled in order, whether a line
    arrived in one read or across several, and two streams with the same
    text deliver the same events.  What follows the last line feed is
    never handled, and the reader is cancelled at the end. *)
Theorem read_stream_ignores_chunking
        (JSON_parse : string -> option JsVal) (chunks : list string) :
  EventStream.read_stream JSON_parse chunks
  = (flat_map (EventStream.frame JSON_parse)
       (removelast (EventStream.split_lines (stream_text chunks)))
     ++ [EventStream.ReaderCancelled])%list
  /\ forall chunks',
      stream_text chunks' = stream_text chunks ->
      EventStream.read_stream JSON_parse chunks'
      = EventStream.read_stream JSON_parse chunks.
Proof.
  split; [apply read_stream_text|].
  intros chunks' E. rewrite !read_stream_text, E. reflexivity.
Qed.

(** X15. Each complete line of the stream is handled on its own: for a
    stream whose text is a sequence of lines, each closed by a line feed,
    followed by an unfinished line, the events are those of the lines
    taken one by one in order, however the text was cut into chunks, and
    the unfinished line is dropped.  So a line whose data is not JSON
    (reported on the console) or that is not a data line (ignored) takes
    nothing away from the lines after it. *)
Theorem read_stream_handles_each_line
        (JSON_parse : string -> option JsVal) (chunks lines : list string)
        (tail : string) :
  Forall (fun l => one_line l = true) lines ->
  one_line tail = true ->
  stream_text chunks = closed_lines lines ++ tail ->
  EventStream.read_stream JSON_parse chunks
  = (flat_map (EventStream.frame JSON_parse) lines
     ++ [EventStream.ReaderCancelled])%list.
Proof.
  intros Hl Ht E.
  rewrite read_stream_text, E, (split_closed_lines lines tail Hl Ht).
  rewrite removelast_last. reflexivity.
Qed.

Lemma read_stream_handles_each_line_witness :
  EventStream.read_stream Scenarios.parse_known Scenarios.stream_chunks
  = [EventStream.Yielded (JObj []); EventStream.Yielded (JNum 1);
     EventStream.ParseFailure "oops"; EventStream.ReaderCancelled].
Proof.
  apply (read_stream_handles_each_line Scenarios.parse_known
           Scenarios.stream_chunks Scenarios.stream_lines "data: {}").
  - repeat constructor.
  - reflexivity.
  - reflexivity.
Defined.

(* ================================================================== *)
(** * Webhook signatures *)
(* ================================================================== *)








(* ================================================================== *)
(** * Secrets that sign alike *)
(* ================================================================== *)

Lemma block_key_zero_padded key :
  (List.length key < 64)%nat ->
  Crypto.block_key (key ++ [0]) = Crypto.block_key key.
Proof.
  intro H. unfold Crypto.block_key.
  rewrite length_app. cbn [List.length].
  replace (64 <? Z.of_nat (List.length key + 1)) with false
    by (symmetry; apply Z.ltb_ge; lia).
  replace (64 <? Z.of_nat (List.length key)) with false
    by (symmetry; apply Z.ltb_ge; lia).
  rewrite length_app, <- app_assoc. cbn [List.length app]. f_equal.
  replace (64 - List.length key)%nat with (S (64 - (List.length key + 1)))%nat by lia.
  reflexivity.
Qed.

Lemma bytes_of_string_app s t :
  Crypto.bytes_of_string (s ++ t)
  = (Crypto.bytes_of_string s ++ Crypto.bytes_of_string t)%list.
Proof.
  unfold Crypto.bytes_of_string. rewrite list_ascii_of_append, map_app. reflexivity.
Qed.

Lemma bytes_of_string_length s :
  List.length (Crypto.bytes_of_string s) = String.length s.
Proof.
  unfold Crypto.bytes_of_string. rewrite length_map.
  induction s; simpl; congruence.
Qed.

(** X17. The request signature does not tell a secret from the same
    secret followed by a NUL byte: for every key, every payload and every
    secret shorter than 64 bytes, [generateSignature] gives the same
    signature under both, HMAC padding its key with zeros up to the block
    size. *)
Theorem generateSignature_ignores_trailing_nul (c c' : Client) (payload : string) :
  apiKey c' = apiKey c ->
  apiSecret c' = apiSecret c ++ String "000"%char "" ->
  (String.length (apiSecret c) < 64)%nat ->
  HttpClient.generateSignature c' payload = HttpClient.generateSignature c payload.
Proof.
  intros Hk Hs Hl.
  unfold HttpClient.generateSignature, HttpClient.stringToSign, Crypto.digest_hex,
    Crypto.update, Crypto.createHmac_sha256, Crypto.hmac_sha256.
  cbn [Crypto.hmac_key Crypto.hmac_data].
  rewrite Hk, Hs, bytes_of_string_app.
  change (Crypto.bytes_of_string (String "000"%char "")) with [0].
  rewrite block_key_zero_padded; [reflexivity|].
  rewrite bytes_of_string_length. exact Hl.
Qed.

Lemma generateSignature_ignores_trailing_nul_witness :
  HttpClient.generateSignature Examples.padded_secret "{}"
  = HttpClient.generateSignature Examples.fresh "{}".
Proof.
  apply (generateSignature_ignores_trailing_nul Examples.fresh Examples.padded_secret
           "{}"); [reflexivity | reflexivity | simpl; lia].
Defined.
